(** * PySnips event logger: buffering, batching, tag scopes, flush scheduling

    A shallow embedding of [pysnips/ml/eventlogger.py] and the properties of
    its step controller, value batch, flush engine and tag scope stack.

    Conventions of the embedding.
    - Python exceptions are values of [PyExc]; a method is a function from
      the world to an outcome and the world it leaves behind.  A raise keeps
      every mutation made before it, as in Python.
    - Every string argument is a native [str] of the running interpreter,
      whose major version [PyMajor] is explicit where the source branches on
      [sys.version_info].
    - [with self._lock] is a reentrant lock held for the whole method body:
      a method call is one atomic transition of the world.
    - The record serializer, metadata conversion and media transcoders live
      in the sibling module [tfevents], which this file takes as an
      interface ([TfEvents]). *)

From Stdlib Require Import ZArith QArith List Lia.
From Stdlib.Strings Require Import Ascii String Byte.
From Stdlib.Floats Require SpecFloat.
From stdpp Require Import base option list gmap strings.

Local Open Scope Z_scope.

(** ** Python outcomes *)

Inductive PyMajor := Py2 | Py3.

Inductive PyExc :=
| AssertionError
| ValueError
| TypeError
| IndexError
| IOError
| OverflowError.

Inductive Result (A : Type) :=
| Ok (a : A)
| Raise (e : PyExc).
Arguments Ok {A} a.
Arguments Raise {A} e.

(** ** Python string primitives used by the logger *)

Module PyStr.

Definition sep : ascii := "/"%char.

(** [s.startswith("/")] *)
Definition startswith_sep (s : string) : bool :=
  match s with
  | String c _ => Ascii.eqb c sep
  | EmptyString => false
  end.

(** ["/" in s] *)
Fixpoint contains_sep (s : string) : bool :=
  match s with
  | EmptyString => false
  | String c r => Ascii.eqb c sep || contains_sep r
  end.

(** [re.sub("/+", "/", s)]: scanning left to right, every maximal run
    matched by the greedy pattern is replaced by one separator.  The flag
    tells whether the scanner is still inside the run it has already
    replaced. *)
Fixpoint re_sub_run (in_run : bool) (s : string) : string :=
  match s with
  | EmptyString => EmptyString
  | String c r =>
      if Ascii.eqb c sep
      then (if in_run then re_sub_run true r
            else String sep (re_sub_run true r))
      else String c (re_sub_run false r)
  end.

Definition re_sub_seps (s : string) : string := re_sub_run false s.

(** ["/".join(parts)] *)
Fixpoint join (parts : list string) : string :=
  match parts with
  | [] => EmptyString
  | [p] => p
  | p :: rest => p +:+ String sep (join rest)
  end.

(** [os.path.join(d, f)] on a POSIX host. *)
Definition ends_with_sep (s : string) : bool :=
  match String.rev s with
  | String c _ => Ascii.eqb c sep
  | EmptyString => false
  end.

Definition path_join (d f : string) : string :=
  if startswith_sep f then f
  else if (String.eqb d EmptyString || ends_with_sep d)%bool then d +:+ f
  else d +:+ String sep f.

(** The substitution in the words of its contract: a separator that is
    followed by another separator is dropped, so that of every run
    exactly one separator is left. *)
Fixpoint collapse_runs (s : string) : string :=
  match s with
  | EmptyString => EmptyString
  | String c r =>
      if (Ascii.eqb c sep && startswith_sep r)%bool then collapse_runs r
      else String c (collapse_runs r)
  end.

Definition drop_leading_sep (s : string) : string :=
  match s with
  | String c r => if Ascii.eqb c sep then r else s
  | EmptyString => EmptyString
  end.

(** No two separators are adjacent. *)
Fixpoint no_double_sep (s : string) : bool :=
  match s with
  | EmptyString => true
  | String c r =>
      negb (Ascii.eqb c sep && startswith_sep r) && no_double_sep r
  end.

(** The characters other than separators, in order. *)
Fixpoint without_seps (s : string) : string :=
  match s with
  | EmptyString => EmptyString
  | String c r =>
      if Ascii.eqb c sep then without_seps r else String c (without_seps r)
  end.

End PyStr.

(** ** Conversion to [float]

    A Python [float] is an IEEE 754 binary64 number.  [float(x)] of a finite
    number of exact value [x], an [int], a [float] or a [Fraction], is the
    double nearest to [x], ties to even, and raises [OverflowError] when
    that is beyond the largest double.  The rounding is the one of the
    standard library's [SpecFloat], fed with the quotient scaled far enough
    below the last place and a sticky bit for its remainder. *)

Module PyFloat.

(** A power of two by which the quotient is scaled: two bits and more below
    the last place of the double, in the normal and the subnormal range. *)
Definition sticky_scale (n : Z) (d : positive) : Z :=
  Z.max 1076 (56 + Z.log2 (Zpos d) - Z.log2 (Z.abs n)).

Definition double_of_Q (x : Q) : option Q :=
  let n := Qnum x in
  let d := Qden x in
  let k := sticky_scale n d in
  let scaled := Z.abs n * 2 ^ k in
  let q := scaled / Zpos d in
  let sticky := if scaled mod Zpos d =? 0 then 0 else 1 in
  match SpecFloat.binary_normalize 53 1024
          (Z.sgn n * (2 * q + sticky)) (- k - 1) false with
  | SpecFloat.S754_zero _ => Some 0%Q
  | SpecFloat.S754_finite sign m e =>
      Some (Qred (Qmult ((if sign then Zneg m else Zpos m) # 1) (Qpower 2 e)))
  | SpecFloat.S754_infinity _ | SpecFloat.S754_nan => None
  end.

End PyFloat.

(** ** The [tfevents] boundary

    The logger hands logical records to [tfevents] and appends the bytes it
    gets back.  The types below are the logical records as the logger builds
    them; their framing is behind [TfEvents]. *)

Abbreviation bytes := (list byte).

Inductive TfSessionStatus := STATUS_UNSPECIFIED | START | STOP | CHECKPOINT.
Inductive TfLogLevel := UNKNOWN | DEBUGGING | INFO | WARN | ERROR | FATAL.
Inductive TfColorSpace := GRAYSCALE | GRAYSCALE_ALPHA | RGB | RGBA.

Record TfMetadata := {
  displayName : option string;
  description : option string;
  pluginName : option string;
  pluginContent : option string
}.

(** The colour space of an image is the caller's integer in the raw calling
    convention and a [TfColorSpace] member in the array convention. *)
Inductive Csc :=
| CscInt (n : Z)
| CscEnum (c : TfColorSpace).

Inductive TfPayload :=
| SimpleValue (x : Q)
| TfImage (h w : Z) (csc : Csc) (data : bytes)
| TfAudio (sampleRate numChannels lengthFrames : Z) (data : bytes)
    (contentType : string)
| TfTensor (content : bytes)
| TfHistogram (content : bytes).

(** [TfValue(tag, ..., metadata=...)]; [metadata = None] also stands for a
    value whose [metadata] attribute has been deleted. *)
Record TfValue := {
  vtag : string;
  payload : TfPayload;
  metadata : option TfMetadata
}.

Definition del_metadata (v : TfValue) : TfValue :=
  {| vtag := vtag v; payload := payload v; metadata := None |}.

Inductive TfEvent :=
| EvHeader (step : Z) (fileVersion : string)
| EvSummary (step : Z) (values : gmap string TfValue)
| EvSessionLog (step : Z) (status : TfSessionStatus) (msg path : option string)
| EvLogMessage (step : Z) (msg : string) (level : TfLogLevel).

(** A [numpy.ndarray] as far as the logger looks into it: its shape and
    whether its dtype is [uint8]. *)
Record NdArray := {
  shape : list Z;
  is_uint8 : bool;
  elems : bytes
}.

Class TfEvents := {
  (** [event.asRecordByteArray()] *)
  asRecordByteArray : TfEvent -> bytes;
  (** [convert_metadata(displayName, description, pluginName, pluginContent)] *)
  convert_metadata :
    option string -> option string -> option string -> option string ->
    option TfMetadata;
  (** [(image * 255.0).astype("uint8")] *)
  scale_to_uint8 : NdArray -> NdArray;
  (** [PIL.Image.frombytes(mode, (w, h), ...)] saved as PNG; it raises on
      data that does not fit the mode and size. *)
  png_encode : string -> Z -> Z -> NdArray -> Result bytes
}.

(** What a caller may pass as the scalar of [logScalar]: a finite number of
    exact value [x], or an object [float] rejects, with the exception it
    raises for it. *)
Inductive ScalarArg :=
| ScalarNum (x : Q)
| ScalarOther (e : PyExc).

(** What a caller may pass as the image of [logImage]: [bytes] or
    [bytearray], a [numpy.ndarray], or any other object. *)
Inductive ImageArg :=
| ImgBytes (data : bytes)
| ImgArray (a : NdArray)
| ImgOther.

(** Any other argument, as far as the logger looks into it: the logger
    hands it to [tfevents] or to [wave] as it is. *)
Inductive PyObject :=
| PyText (s : string)
| PyArray (a : NdArray)
| PyNumber (x : Q)
| PyOther (id : nat).

(** What a caller may pass as the audio of [logAudio]: an object with a
    length, or one [len] rejects. *)
Inductive AudioArg :=
| AudioSized (length : Z) (samples : PyObject)
| AudioUnsized.

(** What [tfevents] and [wave] make of the payloads of [logAudio],
    [logText], [logTensor] and [logHist], or the exception they raise. *)
Class TfMedia := {
  (** the WAVE file that [wave] writes for [numChannels], [sampleRate],
      16 bits per sample and the frames *)
  wave_encode : Z -> Z -> PyObject -> Result bytes;
  (** [TfTensor(x, dimNames)] *)
  tensor_content : PyObject -> option PyObject -> Result bytes;
  (** [TfHistogram(x, bins)] *)
  histogram_content : PyObject -> option PyObject -> Result bytes
}.

(** The type of the object passed as a tag.  Python 2 has two text types;
    a [unicode] object and a [str] of the same ASCII text are equal and are
    the same dictionary key. *)
Inductive TagType :=
| TagIsStr
| TagIsUnicode.

(** [isinstance(tag, str)] *)
Definition isinstance_str (ty : TagType) : bool :=
  match ty with
  | TagIsStr => true
  | TagIsUnicode => false
  end.

(** What a caller may pass as the value of [recordValue]. *)
Inductive ValueArg :=
| IsTfValue (v : TfValue)
| NotTfValue.

(** ** Logger objects, the disk and the world *)

Inductive LoggerClass := EventLogger | NullEventLogger.

(** The thread object held in [self._daemonThread]. *)
Inductive ThreadStatus := Alive | Dead.

Record Logger := {
  cls : LoggerClass;
  _logDir : string;
  _creationStep : option Z;
  _currentStep : Z;
  _flushSecs : option Q;
  (** the creation time as ["{:030.9f}"] prints it *)
  _creationTime : string;
  _uuid : string;
  _metadata : gset string;
  _values : gmap string TfValue;
  __bytebuffer : bytes;
  (** the instance attribute [self._tls]; no method reads it *)
  _tls : gmap nat (list string);
  _isExiting : bool;
  (** [None] when the attribute does not exist *)
  _daemonThread : option ThreadStatus
}.

Record Disk := {
  files : gmap string bytes;
  dirs : gset string;
  (** whether [open(path, "ab")] succeeds *)
  writable : bool
}.

(** [tls] is the class attribute [EventLogger.__tls], keyed by thread; an
    absent key is a thread whose [_tagScopePath] attribute does not exist
    yet. *)
Record World := {
  tls : gmap nat (list string);
  self : Logger;
  disk : Disk
}.

Definition set_tls (f : gmap nat (list string) -> gmap nat (list string))
    (w : World) : World :=
  {| tls := f (tls w); self := self w; disk := disk w |}.

Definition set_self (f : Logger -> Logger) (w : World) : World :=
  {| tls := tls w; self := f (self w); disk := disk w |}.

Definition set_disk (f : Disk -> Disk) (w : World) : World :=
  {| tls := tls w; self := self w; disk := f (disk w) |}.

Definition with_step (k : Z) (l : Logger) : Logger :=
  {| cls := cls l; _logDir := _logDir l; _creationStep := _creationStep l;
     _currentStep := k; _flushSecs := _flushSecs l;
     _creationTime := _creationTime l; _uuid := _uuid l;
     _metadata := _metadata l; _values := _values l;
     __bytebuffer := __bytebuffer l; _tls := _tls l;
     _isExiting := _isExiting l; _daemonThread := _daemonThread l |}.

Definition with_metadata (s : gset string) (l : Logger) : Logger :=
  {| cls := cls l; _logDir := _logDir l; _creationStep := _creationStep l;
     _currentStep := _currentStep l; _flushSecs := _flushSecs l;
     _creationTime := _creationTime l; _uuid := _uuid l;
     _metadata := s; _values := _values l;
     __bytebuffer := __bytebuffer l; _tls := _tls l;
     _isExiting := _isExiting l; _daemonThread := _daemonThread l |}.

Definition with_values (m : gmap string TfValue) (l : Logger) : Logger :=
  {| cls := cls l; _logDir := _logDir l; _creationStep := _creationStep l;
     _currentStep := _currentStep l; _flushSecs := _flushSecs l;
     _creationTime := _creationTime l; _uuid := _uuid l;
     _metadata := _metadata l; _values := m;
     __bytebuffer := __bytebuffer l; _tls := _tls l;
     _isExiting := _isExiting l; _daemonThread := _daemonThread l |}.

Definition with_bytebuffer (b : bytes) (l : Logger) : Logger :=
  {| cls := cls l; _logDir := _logDir l; _creationStep := _creationStep l;
     _currentStep := _currentStep l; _flushSecs := _flushSecs l;
     _creationTime := _creationTime l; _uuid := _uuid l;
     _metadata := _metadata l; _values := _values l;
     __bytebuffer := b; _tls := _tls l;
     _isExiting := _isExiting l; _daemonThread := _daemonThread l |}.

Definition with_isExiting (e : bool) (l : Logger) : Logger :=
  {| cls := cls l; _logDir := _logDir l; _creationStep := _creationStep l;
     _currentStep := _currentStep l; _flushSecs := _flushSecs l;
     _creationTime := _creationTime l; _uuid := _uuid l;
     _metadata := _metadata l; _values := _values l;
     __bytebuffer := __bytebuffer l; _tls := _tls l;
     _isExiting := e; _daemonThread := _daemonThread l |}.

Definition with_daemonThread (t : option ThreadStatus) (l : Logger) : Logger :=
  {| cls := cls l; _logDir := _logDir l; _creationStep := _creationStep l;
     _currentStep := _currentStep l; _flushSecs := _flushSecs l;
     _creationTime := _creationTime l; _uuid := _uuid l;
     _metadata := _metadata l; _values := _values l;
     __bytebuffer := __bytebuffer l; _tls := _tls l;
     _isExiting := _isExiting l; _daemonThread := t |}.

(** ** The method monad: world passing with Python exceptions *)

Definition M (A : Type) : Type := World -> Result A * World.

Definition ret {A} (a : A) : M A := fun w => (Ok a, w).

Definition raise {A} (e : PyExc) : M A := fun w => (Raise e, w).

Definition bind {A B} (m : M A) (k : A -> M B) : M B :=
  fun w =>
    match m w with
    | (Ok a, w') => k a w'
    | (Raise e, w') => (Raise e, w')
    end.

#[global] Instance M_ret : MRet M := @ret.
#[global] Instance M_bind : MBind M := fun A B k m => bind m k.

Definition get_self : M Logger := fun w => (Ok (self w), w).
Definition update_self (f : Logger -> Logger) : M unit :=
  fun w => (Ok tt, set_self f w).
Definition update_tls (f : gmap nat (list string) -> gmap nat (list string))
    : M unit :=
  fun w => (Ok tt, set_tls f w).
Definition py_assert (b : bool) : M unit :=
  if b then ret tt else raise AssertionError.

(** [for x in xs: body(x)] *)
Fixpoint for_each {A} (xs : list A) (body : A -> M unit) : M unit :=
  match xs with
  | [] => ret tt
  | x :: rest => body x;; for_each rest body
  end.

Definition exec {A} (m : M A) (w : World) : World := snd (m w).
Definition outcome {A} (m : M A) (w : World) : Result A := fst (m w).

(** ** Tag scopes *)

(** The property [_tagScopePath]: the calling thread's list in the class
    attribute [__tls], created empty on first use. *)
Definition _tagScopePath (tid : nat) : M (list string) :=
  fun w =>
    match tls w !! tid with
    | Some st => (Ok st, w)
    | None => (Ok [], set_tls <[tid := []]> w)
    end.

(** [self._tagScopePath.append(x)] *)
Definition scope_append (tid : nat) (x : string) : M unit :=
  st ← _tagScopePath tid;
  update_tls <[tid := st ++ [x]]>.

(** [self._tagScopePath.pop()] *)
Definition scope_pop (tid : nat) : M unit :=
  st ← _tagScopePath tid;
  match st with
  | [] => raise IndexError
  | _ :: _ => update_tls <[tid := removelast st]>
  end.

(** The checks of [tagscope] on one name.  A native [str] is left alone by
    Python 2, where it is not [unicode]; Python 3 encodes it to [bytes],
    which is not a [str]. *)
Definition isinstance_str_after_encode (ver : PyMajor) : bool :=
  match ver with
  | Py2 => true
  | Py3 => false
  end.

Definition check_groupName (ver : PyMajor) (groupName : string) : M unit :=
  py_assert (isinstance_str_after_encode ver);;
  py_assert (negb (String.eqb groupName EmptyString));;
  py_assert (negb (PyStr.contains_sep groupName)).

(** A generator function with one bare [yield]: the code before it and the
    code after it. *)
Record Generator := {
  before_yield : M unit;
  after_yield : M unit
}.

(** [with g: body] for a generator wrapped by [contextlib.contextmanager].
    On entry the generator runs to its [yield].  When the body returns, the
    generator is resumed and runs to its end.  When the body raises, the
    exception is thrown into the generator at the [yield]; no handler
    encloses it there, so the generator ends at once and the exception
    propagates. *)
Definition resume_after {A} (g : Generator) (body : M A) : M A :=
  fun w =>
    match body w with
    | (Ok a, w') => (after_yield g;; ret a) w'
    | (Raise e, w') => (Raise e, w')
    end.

Definition py_with {A} (g : Generator) (body : M A) : M A :=
  before_yield g;;
  resume_after g body.

Definition tagscope (ver : PyMajor) (tid : nat) (groupNames : list string)
    : Generator :=
  {| before_yield :=
       for_each groupNames (check_groupName ver);;
       for_each groupNames (scope_append tid);
     after_yield :=
       for_each groupNames (fun _ => scope_pop tid) |}.

Definition getFullTag (tid : nat) (tag : string) : M string :=
  py_assert (negb (PyStr.startswith_sep tag));;
  let tag := PyStr.re_sub_seps tag in
  st ← _tagScopePath tid;
  ret (PyStr.join (st ++ [tag])).

(** ** The logger *)

Section Logger.

Context `{TfEvents}.

(** A method that [NullEventLogger] overrides dispatches on the class of
    [self]; the other methods are inherited as they are. *)

(** The property [_logFileName] *)
Definition _logFileName (l : Logger) : string :=
  "tfevents." +:+ _creationTime l +:+ "." +:+ _uuid l +:+ ".out".

(** The property [_logFilePath] *)
Definition _logFilePath (l : Logger) : string :=
  PyStr.path_join (_logDir l) (_logFileName l).

(** [os.path.isdir] and [os.path.isfile] *)
Definition isdir (d : Disk) (p : string) : bool := bool_decide (p ∈ dirs d).
Definition isfile (d : Disk) (p : string) : bool :=
  bool_decide (is_Some (files d !! p)).

(** [EventLogger.__init__]; [now] and [uuid4] are what [time.time()] and
    [uuid.uuid4()] return. *)
Definition EventLogger_init (logDir : string) (step : option Z)
    (flushSecs : option Q) (now uuid4 : string) (d : Disk) : Result Logger :=
  let l :=
    {| cls := EventLogger;
       _logDir := logDir;
       _creationStep := step;
       _currentStep := match step with None => 0 | Some s => s end;
       _flushSecs := flushSecs;
       _creationTime := now;
       _uuid := uuid4;
       _metadata := ∅;
       _values := ∅;
       __bytebuffer := [];
       _tls := ∅;
       _isExiting := false;
       _daemonThread := None |} in
  if negb (isdir d (_logDir l)) then Raise AssertionError
  else if isfile d (_logFilePath l) then Raise AssertionError
  else
    let l := with_bytebuffer
               (__bytebuffer l ++
                asRecordByteArray (EvHeader (_currentStep l) "brain.Event:2"))
               l in
    match _creationStep l with
    | Some _ =>
        Ok (with_bytebuffer
              (__bytebuffer l ++
               asRecordByteArray
                 (EvSessionLog (_currentStep l) START
                    (Some "Restarting...") (Some (_logDir l))))
              l)
    | None => Ok l
    end.

(** [NullEventLogger.__init__] *)
Definition NullEventLogger_init : Logger :=
  {| cls := NullEventLogger;
     _logDir := ".";
     _creationStep := None;
     _currentStep := 0;
     _flushSecs := None;
     _creationTime := "0";
     _uuid := "00000000-0000-0000-0000-000000000000";
     _metadata := ∅;
     _values := ∅;
     __bytebuffer := [];
     _tls := ∅;
     _isExiting := false;
     _daemonThread := None |}.

(** [_spawnDaemonThread]: at most one thread, and none without a flush
    interval. *)
Definition _spawnDaemonThread : M unit :=
  l ← get_self;
  match cls l with
  | NullEventLogger => ret tt
  | EventLogger =>
      match _flushSecs l, _daemonThread l with
      | Some _, None => update_self (with_daemonThread (Some Alive))
      | _, _ => ret tt
      end
  end.

(** [appendBuffer(b)] *)
Definition appendBuffer (b : bytes) : M unit :=
  l ← get_self;
  match cls l with
  | NullEventLogger => ret tt
  | EventLogger =>
      update_self (fun l => with_bytebuffer (__bytebuffer l ++ b) l);;
      _spawnDaemonThread
  end.

(** [appendSummary]: the batch goes out as one summary record at the
    current step, and a new empty dictionary takes its place. *)
Definition appendSummary : M unit :=
  l ← get_self;
  if bool_decide (_values l = ∅) then ret tt
  else
    appendBuffer
      (asRecordByteArray (EvSummary (_currentStep l) (_values l)));;
    update_self (with_values ∅).

(** [__maybeForceAppend(tag)] *)
Definition __maybeForceAppend (tag : string) : M unit :=
  l ← get_self;
  if bool_decide (is_Some (_values l !! tag)) then appendSummary
  else ret tt.

(** [recordValue(tag, val)] for a tag object of type [ty]; the null logger
    overrides it with a method that asserts nothing. *)
Definition recordValue (ty : TagType) (tag : string) (val : ValueArg)
    : M unit :=
  l ← get_self;
  match cls l with
  | NullEventLogger => ret tt
  | EventLogger =>
      py_assert (isinstance_str ty);;
      match val with
      | NotTfValue => raise AssertionError
      | IsTfValue val =>
          let val := if bool_decide (tag ∈ _metadata l)
                     then del_metadata val else val in
          update_self (fun l => with_values (<[tag := val]> (_values l)) l);;
          update_self (fun l => with_metadata ({[tag]} ∪ _metadata l) l)
      end
  end.

(** [open(path, "ab")], [write], [flush] and close.  A write that the disk
    refuses raises before anything reaches the file. *)
Definition file_append (path : string) (b : bytes) : M unit :=
  fun w =>
    if writable (disk w)
    then (Ok tt,
          set_disk (fun d =>
            {| files := <[path := default [] (files d !! path) ++ b]> (files d);
               dirs := dirs d;
               writable := writable d |}) w)
    else (Raise IOError, w).

(** [flush] *)
Definition flush : M unit :=
  l ← get_self;
  match cls l with
  | NullEventLogger => ret tt
  | EventLogger =>
      appendSummary;;
      l ← get_self;
      match __bytebuffer l with
      | [] => ret tt
      | _ :: _ =>
          file_append (_logFilePath l) (__bytebuffer l);;
          update_self (with_bytebuffer [])
      end
  end.

(** [step(step=None)] *)
Definition step (arg : option Z) : M unit :=
  l ← get_self;
  match cls l with
  | NullEventLogger => ret tt
  | EventLogger =>
      match arg with
      | None =>
          appendSummary;;
          update_self (fun l => with_step (_currentStep l + 1) l)
      | Some k =>
          flush;;
          update_self (with_step k)
      end
  end.

(** [__del__] *)
Definition __del__ : M unit :=
  flush;;
  update_self (with_isExiting true).

(** *** Logging calls *)

(** [self.__maybeForceAppend(tag).recordValue(tag, val)], the block every
    [log*] method runs under the lock, for a tag object of type [ty] and the
    value the method has built. *)
Definition record_with (ty : TagType) (tag : string) (val : TfValue) : M unit :=
  __maybeForceAppend tag;;
  recordValue ty tag (IsTfValue val).

(** The same block for a tag that is a [str]. *)
Definition record (tag : string) (val : TfValue) : M unit :=
  record_with TagIsStr tag val.

(** [float(scalar)] *)
Definition py_float (a : ScalarArg) : M Q :=
  match a with
  | ScalarNum x =>
      match PyFloat.double_of_Q x with
      | Some y => ret y
      | None => raise OverflowError
      end
  | ScalarOther e => raise e
  end.

(** [int(x)] of an optional argument whose default is [None] *)
Definition py_int (a : option Z) : M Z :=
  match a with
  | Some z => ret z
  | None => raise TypeError
  end.

(** An outcome computed outside the logger. *)
Definition lift_result {A} (r : Result A) : M A := fun w => (r, w).

(** [logScalar], called in thread [tid] with a tag object of type [ty] *)
Definition logScalar_with (ty : TagType) (tid : nat) (tag : string)
    (scalar : ScalarArg)
    (displayName description pluginName pluginContent : option string)
    : M unit :=
  tag ← getFullTag tid tag;
  let metadata :=
    convert_metadata displayName description pluginName pluginContent in
  x ← py_float scalar;
  let val := {| vtag := tag; payload := SimpleValue x;
                metadata := metadata |} in
  record_with ty tag val.

(** [logScalar] with a [str] tag *)
Definition logScalar (tid : nat) (tag : string) (scalar : ScalarArg)
    (displayName description pluginName pluginContent : option string)
    : M unit :=
  logScalar_with TagIsStr tid tag scalar
    displayName description pluginName pluginContent.

(** The channel count of an array selects colour space and PIL mode. *)
Definition channel_mode (c : Z) : M (TfColorSpace * string) :=
  if c =? 1 then ret (GRAYSCALE, "L")
  else if c =? 2 then ret (GRAYSCALE_ALPHA, "LA")
  else if c =? 3 then ret (RGB, "RGB")
  else if c =? 4 then ret (RGBA, "RGBA")
  else raise ValueError.

(** The branches of [logImage] that turn its arguments into the fields of
    a [TfImage]: height, width, colour space, encoded bytes. *)
Definition image_fields (image : ImageArg) (csc h w : option Z)
    : M (Z * Z * Csc * bytes) :=
  match image with
  | ImgBytes data =>
      csc ← py_int csc;
      w ← py_int w;
      h ← py_int h;
      ret (h, w, CscInt csc, data)
  | ImgArray a =>
      match shape a with
      | [c; h; w] =>
          let a := if is_uint8 a then a else scale_to_uint8 a in
          cm ← channel_mode c;
          data ← lift_result (png_encode (snd cm) w h a);
          ret (h, w, CscEnum (fst cm), data)
      | _ => raise ValueError
      end
  | ImgOther => raise ValueError
  end.

(** [logImage], called in thread [tid] with a tag object of type [ty] *)
Definition logImage_with (ty : TagType) (tid : nat) (tag : string)
    (image : ImageArg) (csc h w : option Z)
    (displayName description pluginName pluginContent : option string)
    : M unit :=
  tag ← getFullTag tid tag;
  let metadata :=
    convert_metadata displayName description pluginName pluginContent in
  f ← image_fields image csc h w;
  let val := {| vtag := tag;
                payload := TfImage (fst (fst (fst f))) (snd (fst (fst f)))
                                   (snd (fst f)) (snd f);
                metadata := metadata |} in
  record_with ty tag val.

(** [logImage] with a [str] tag *)
Definition logImage (tid : nat) (tag : string) (image : ImageArg)
    (csc h w : option Z)
    (displayName description pluginName pluginContent : option string)
    : M unit :=
  logImage_with TagIsStr tid tag image csc h w
    displayName description pluginName pluginContent.

(** [len(audio)] *)
Definition py_len (a : AudioArg) : M Z :=
  match a with
  | AudioSized n _ => ret n
  | AudioUnsized => raise TypeError
  end.

(** The object whose length [py_len] has taken. *)
Definition samples_of (a : AudioArg) : PyObject :=
  match a with
  | AudioSized _ s => s
  | AudioUnsized => PyOther 0
  end.

(** A call of one of the six methods that log a value, with the arguments
    that are the method's own. *)
Inductive LogCall :=
| CallScalar (scalar : ScalarArg)
| CallImage (image : ImageArg) (csc h w : option Z)
| CallAudio (audio : AudioArg) (sampleRate numChannels : Z)
| CallText (text : PyObject)
| CallTensor (tensor : PyObject) (dimNames : option PyObject)
| CallHist (tensor : PyObject) (bins : option PyObject).

Section Media.

Context `{TfMedia}.

(** [logAudio], called in thread [tid] with a tag object of type [ty] *)
Definition logAudio_with (ty : TagType) (tid : nat) (tag : string)
    (audio : AudioArg) (sampleRate numChannels : Z)
    (displayName description pluginName pluginContent : option string)
    : M unit :=
  tag ← getFullTag tid tag;
  let metadata :=
    convert_metadata displayName description pluginName pluginContent in
  lengthFrames ← py_len audio;
  data ← lift_result (wave_encode numChannels sampleRate (samples_of audio));
  let val := {| vtag := tag;
                payload := TfAudio sampleRate numChannels lengthFrames data
                                   "audio/wav";
                metadata := metadata |} in
  record_with ty tag val.

(** [logText], called in thread [tid] with a tag object of type [ty] *)
Definition logText_with (ty : TagType) (tid : nat) (tag : string)
    (text : PyObject)
    (displayName description pluginName pluginContent : option string)
    : M unit :=
  tag ← getFullTag tid tag;
  let metadata :=
    convert_metadata displayName description pluginName pluginContent in
  content ← lift_result (tensor_content text None);
  let val := {| vtag := tag; payload := TfTensor content;
                metadata := metadata |} in
  record_with ty tag val.

(** [logTensor], called in thread [tid] with a tag object of type [ty] *)
Definition logTensor_with (ty : TagType) (tid : nat) (tag : string)
    (tensor : PyObject) (dimNames : option PyObject)
    (displayName description pluginName pluginContent : option string)
    : M unit :=
  tag ← getFullTag tid tag;
  let metadata :=
    convert_metadata displayName description pluginName pluginContent in
  content ← lift_result (tensor_content tensor dimNames);
  let val := {| vtag := tag; payload := TfTensor content;
                metadata := metadata |} in
  record_with ty tag val.

(** [logHist], called in thread [tid] with a tag object of type [ty] *)
Definition logHist_with (ty : TagType) (tid : nat) (tag : string)
    (tensor : PyObject) (bins : option PyObject)
    (displayName description pluginName pluginContent : option string)
    : M unit :=
  tag ← getFullTag tid tag;
  let metadata :=
    convert_metadata displayName description pluginName pluginContent in
  content ← lift_result (histogram_content tensor bins);
  let val := {| vtag := tag; payload := TfHistogram content;
                metadata := metadata |} in
  record_with ty tag val.

(** The method a [LogCall] names, called in thread [tid]. *)
Definition log_call (ty : TagType) (tid : nat) (tag : string) (c : LogCall)
    (displayName description pluginName pluginContent : option string)
    : M unit :=
  match c with
  | CallScalar scalar =>
      logScalar_with ty tid tag scalar
        displayName description pluginName pluginContent
  | CallImage image csc h w =>
      logImage_with ty tid tag image csc h w
        displayName description pluginName pluginContent
  | CallAudio audio sampleRate numChannels =>
      logAudio_with ty tid tag audio sampleRate numChannels
        displayName description pluginName pluginContent
  | CallText text =>
      logText_with ty tid tag text
        displayName description pluginName pluginContent
  | CallTensor tensor dimNames =>
      logTensor_with ty tid tag tensor dimNames
        displayName description pluginName pluginContent
  | CallHist tensor bins =>
      logHist_with ty tid tag tensor bins
        displayName description pluginName pluginContent
  end.

End Media.

(** [logMessage(msg, level)] *)
Definition logMessage (msg : string) (level : TfLogLevel) : M unit :=
  appendSummary;;
  l ← get_self;
  appendBuffer (asRecordByteArray (EvLogMessage (_currentStep l) msg level));;
  flush.

(** [logSession(status, msg, path)] *)
Definition logSession (status : TfSessionStatus) (msg path : option string)
    : M unit :=
  appendSummary;;
  l ← get_self;
  appendBuffer
    (asRecordByteArray (EvSessionLog (_currentStep l) status msg path));;
  flush.

(** *** The flush daemon *)

Inductive LoopCtl := Continue | Break.

(** One turn of the [while True] loop of [_daemonRun], from the moment
    [time.sleep] returns. *)
Definition _daemonRun_turn : M LoopCtl :=
  l ← get_self;
  match cls l with
  | NullEventLogger => ret Break
  | EventLogger =>
      flush;;
      l ← get_self;
      if _isExiting l
      then update_self (with_daemonThread None);; ret Break
      else ret Continue
  end.

(** A wake-up of the daemon thread.  Only a live thread wakes up.  An
    exception that leaves [_daemonRun] ends the thread; the attribute
    [_daemonThread] still holds the dead thread object. *)
Definition daemon_wakeup (w : World) : World :=
  match _daemonThread (self w) with
  | Some Alive =>
      match _daemonRun_turn w with
      | (Ok _, w') => w'
      | (Raise _, w') => set_self (with_daemonThread (Some Dead)) w'
      end
  | _ => w
  end.

(** [n] wake-ups in a row, nothing else happening in between. *)
Fixpoint daemon_wakeups (n : nat) (w : World) : World :=
  match n with
  | O => w
  | S n => daemon_wakeups n (daemon_wakeup w)
  end.

End Logger.

(** * Vocabulary of the properties *)

(** ** The scope stack of a thread *)

Definition stack_of (w : World) (tid : nat) : list string :=
  default [] (tls w !! tid).

Definition with_stack (tid : nat) (st : list string) (w : World) : World :=
  set_tls <[tid := st]> w.

Definition name_ok (ver : PyMajor) (g : string) : bool :=
  isinstance_str_after_encode ver && negb (String.eqb g EmptyString)
  && negb (PyStr.contains_sep g).

Definition names_ok (ver : PyMajor) (names : list string) : bool :=
  forallb (name_ok ver) names.

(** The world in which the body of [with tagscope(names)] starts. *)
Definition entered (tid : nat) (names : list string) (w : World) : World :=
  match names with
  | [] => w
  | _ :: _ => with_stack tid (stack_of w tid ++ names) w
  end.

(** The world after the names have been popped again. *)
Definition left_scope (tid : nat) (names st : list string) (w : World) : World :=
  match names with
  | [] => w
  | _ :: _ => with_stack tid st w
  end.

(** The same world seen from the methods of another logger object. *)
Definition with_self (l : Logger) (w : World) : World := set_self (fun _ => l) w.

(** ** What each method does to a logger *)

Definition file_size (path : string) (d : Disk) : nat :=
  List.length (default [] (files d !! path)).

Section Vocabulary.

Context `{TfEvents}.

Definition spawned (l : Logger) : Logger :=
  match _flushSecs l, _daemonThread l with
  | Some _, None => with_daemonThread (Some Alive) l
  | _, _ => l
  end.

Definition appended (b : bytes) (l : Logger) : Logger :=
  spawned (with_bytebuffer (__bytebuffer l ++ b) l).

(** The summary record a drain emits, empty when nothing is pending. *)
Definition summary_bytes (l : Logger) : bytes :=
  if bool_decide (_values l = ∅) then []
  else asRecordByteArray (EvSummary (_currentStep l) (_values l)).

Definition drained (l : Logger) : Logger :=
  if bool_decide (_values l = ∅) then l
  else with_values ∅
         (appended
            (asRecordByteArray (EvSummary (_currentStep l) (_values l))) l).

Definition recorded (tag : string) (val : TfValue) (l : Logger) : Logger :=
  with_metadata ({[tag]} ∪ _metadata l)
    (with_values
       (<[tag := if bool_decide (tag ∈ _metadata l)
                 then del_metadata val else val]> (_values l)) l).

Definition forced (tag : string) (l : Logger) : Logger :=
  if bool_decide (is_Some (_values l !! tag)) then drained l else l.

(** The files after [data] has been appended to the one at [path]; no file
    is opened for no data. *)
Definition written (path : string) (data : bytes) (d : Disk) : Disk :=
  match data with
  | [] => d
  | _ :: _ =>
      {| files := <[path := default [] (files d !! path) ++ data]> (files d);
         dirs := dirs d;
         writable := writable d |}
  end.

Definition header_bytes (s : Z) : bytes :=
  asRecordByteArray (EvHeader s "brain.Event:2").

Definition restart_bytes (s : Z) (logDir : string) : bytes :=
  asRecordByteArray
    (EvSessionLog s START (Some "Restarting...") (Some logDir)).

(** The reading under which the restart marker depends on the value of
    the starting step: present for a nonzero one, absent otherwise. *)
Definition restart_marker_iff_nonzero_step : Prop :=
  ∀ logDir step flushSecs now uuid4 d l,
    EventLogger_init logDir step flushSecs now uuid4 d = Ok l →
    __bytebuffer l =
    header_bytes (_currentStep l) ++
    match step with
    | Some s => if s =? 0 then [] else restart_bytes s logDir
    | None => []
    end.

(** The reading under which a flush that raises inside the daemon leaves
    the daemon running. *)
Definition scheduler_survives_flush_error : Prop :=
  ∀ w e,
    _daemonThread (self w) = Some Alive →
    outcome _daemonRun_turn w = Raise e →
    _daemonThread (self (daemon_wakeup w)) = Some Alive.

(** Two worlds with the same logger, disk and scope stacks. *)
Definition same_state (w' w : World) : Prop :=
  self w' = self w ∧ disk w' = disk w ∧ ∀ t, stack_of w' t = stack_of w t.

End Vocabulary.

(** ** Traces of calls

    What one thread after another does to a logger, its disk and the scope
    stacks: method calls, wake-ups of the daemon, and the disk turning
    writable or not.  A call that raises has been caught by its caller; the
    trace goes on from the world the call left. *)

Inductive Op :=
| OStep (arg : option Z)
| OFlush
| ODel
| OLogScalar (tid : nat) (tag : string) (scalar : ScalarArg)
    (dn de pn pc : option string)
| OLogImage (tid : nat) (tag : string) (image : ImageArg) (csc h wd : option Z)
    (dn de pn pc : option string)
| OLogMessage (msg : string) (level : TfLogLevel)
| OLogSession (status : TfSessionStatus) (msg path : option string)
| OScopeEnter (ver : PyMajor) (tid : nat) (names : list string)
| OScopeExit (ver : PyMajor) (tid : nat) (names : list string)
| OWakeup
| ODisk (ok : bool).

Definition set_writable (ok : bool) (w : World) : World :=
  set_disk (fun d => {| files := files d; dirs := dirs d; writable := ok |}) w.


Definition is_advance (o : Op) : bool :=
  match o with
  | OStep None => true
  | _ => false
  end.

Definition is_setStep (o : Op) : bool :=
  match o with
  | OStep (Some _) => true
  | _ => false
  end.

Section Traces.

Context `{TfEvents}.

Definition run_op (o : Op) (w : World) : World :=
  match o with
  | OStep arg => exec (step arg) w
  | OFlush => exec flush w
  | ODel => exec __del__ w
  | OLogScalar tid tag scalar dn de pn pc =>
      exec (logScalar tid tag scalar dn de pn pc) w
  | OLogImage tid tag image csc h wd dn de pn pc =>
      exec (logImage tid tag image csc h wd dn de pn pc) w
  | OLogMessage msg level => exec (logMessage msg level) w
  | OLogSession status msg path => exec (logSession status msg path) w
  | OScopeEnter ver tid names => exec (before_yield (tagscope ver tid names)) w
  | OScopeExit ver tid names => exec (after_yield (tagscope ver tid names)) w
  | OWakeup => daemon_wakeup w
  | ODisk ok => set_writable ok w
  end.

Fixpoint run_ops (os : list Op) (w : World) : World :=
  match os with
  | [] => w
  | o :: os => run_ops os (run_op o w)
  end.

(** The moves a call is made of.  [quiet] moves leave the step counter
    alone. *)
Inductive quiet : World → World → Prop :=
| quiet_tls f w : quiet w (set_tls f w)
| quiet_env ok w : quiet w (set_writable ok w)
| quiet_drain w :
    cls (self w) = EventLogger → quiet w (with_self (drained (self w)) w)
| quiet_append b w :
    cls (self w) = EventLogger → quiet w (with_self (appended b (self w)) w)
| quiet_record tag val w :
    cls (self w) = EventLogger →
    quiet w (with_self (recorded tag val (self w)) w)
| quiet_write w :
    cls (self w) = EventLogger →
    writable (disk w) = true →
    quiet w {| tls := tls w;
               self := with_bytebuffer [] (self w);
               disk := written (_logFilePath (self w)) (__bytebuffer (self w))
                         (disk w) |}
| quiet_exiting w : quiet w (with_self (with_isExiting true (self w)) w)
| quiet_thread_end t w :
    _daemonThread (self w) = Some Alive → t ≠ Some Alive →
    quiet w (with_self (with_daemonThread t (self w)) w).

Inductive move : World → World → Prop :=
| move_quiet w w' : quiet w w' → move w w'
| move_step k w : move w (with_self (with_step k (self w)) w).

End Traces.

(** What may happen to a logger later on: an operation of a trace, a call
    of any of the six logging methods with a tag of either type, or the
    disk changing under it. *)

Section Later.

Context `{TfEvents} `{TfMedia}.

Inductive later_event : World → World → Prop :=
| later_op o w : later_event w (run_op o w)
| later_log ty tid tag c dn de pn pc w :
    later_event w (exec (log_call ty tid tag c dn de pn pc) w)
| later_disk d w : later_event w (set_disk (fun _ => d) w).

End Later.

(** ** The stack of default loggers

    [_loggerStack] is a second attribute of the thread-local object that
    holds the scope stacks.  A logger on it is known by the identity of the
    object; [FreshNull] is the [NullEventLogger()] that [getDefault] builds
    when the stack is empty. *)

Inductive LoggerRef :=
| Obj (id : nat)
| FreshNull.

(** What [__exit__] can raise: [AttributeError] when the attribute was
    never created, or the [IndexError] of a pop from an empty list. *)
Inductive RegistryExc :=
| AttributeError
| Builtin (e : PyExc).

(** [EventLogger.getDefault()] in thread [tid] *)
Definition getDefault (tid : nat) (r : gmap nat (list nat))
    : LoggerRef * gmap nat (list nat) :=
  match r !! tid with
  | None => (FreshNull, <[tid := []]> r)
  | Some st =>
      (match last st with Some o => Obj o | None => FreshNull end, r)
  end.

(** [self.__enter__()] for the object [self_id] *)
Definition __enter__ (self_id tid : nat) (r : gmap nat (list nat))
    : gmap nat (list nat) :=
  <[tid := default [] (r !! tid) ++ [self_id]]> r.

(** [self.__exit__], whatever exception it is told about *)
Definition __exit__ (tid : nat) (r : gmap nat (list nat))
    : RegistryExc + gmap nat (list nat) :=
  match r !! tid with
  | None => inl AttributeError
  | Some [] => inl (Builtin IndexError)
  | Some (o :: st) => inr (<[tid := removelast (o :: st)]> r)
  end.

(** [with logger: body].  [__exit__] runs however the body ends and
    returns nothing, so an exception of the body goes on to the caller. *)
Definition with_logger {A} (self_id tid : nat)
    (body : gmap nat (list nat) → (RegistryExc + A) * gmap nat (list nat))
    (r : gmap nat (list nat)) : (RegistryExc + A) * gmap nat (list nat) :=
  let '(res, r2) := body (__enter__ self_id tid r) in
  match __exit__ tid r2 with
  | inl e => (inl e, r2)
  | inr r3 => (res, r3)
  end.

(** ** The module-level functions

    [logScalar(...)], [logMessage(...)] and the others at module level call
    the method of the same name on [EventLogger.getDefault()].  A process
    has logger objects, known by their identity, the stacks of default
    loggers and of scope names of its threads, and a disk. *)

Record Process := {
  heap : nat → Logger;
  stacks : gmap nat (list nat);
  scopes : gmap nat (list string);
  pdisk : Disk
}.

(** A method called on the object a reference denotes.  The null logger
    that [getDefault] has just built is dropped after the call. *)
Definition call_method {A} (ref : LoggerRef) (m : M A) (p : Process)
    : Result A * Process :=
  let l := match ref with
           | Obj id => heap p id
           | FreshNull => NullEventLogger_init
           end in
  let '(res, w') := m {| tls := scopes p; self := l; disk := pdisk p |} in
  (res,
   {| heap := match ref with
              | Obj id =>
                  fun j => if decide (j = id) then self w' else heap p j
              | FreshNull => heap p
              end;
      stacks := stacks p;
      scopes := tls w';
      pdisk := disk w' |}).

(** [EventLogger.getDefault().m(...)] in thread [tid] *)
Definition on_default {A} (tid : nat) (m : M A) (p : Process)
    : Result A * Process :=
  let '(ref, st) := getDefault tid (stacks p) in
  call_method ref m
    {| heap := heap p; stacks := st; scopes := scopes p; pdisk := pdisk p |}.

Module Globals.
Section Globals.

Context `{TfEvents}.

Definition logScalar (tid : nat) (tag : string) (scalar : ScalarArg)
    (dn de pn pc : option string) : Process → Result unit * Process :=
  on_default tid (logScalar tid tag scalar dn de pn pc).

Definition logImage (tid : nat) (tag : string) (image : ImageArg)
    (csc h wd : option Z) (dn de pn pc : option string)
    : Process → Result unit * Process :=
  on_default tid (logImage tid tag image csc h wd dn de pn pc).

Definition logMessage (tid : nat) (msg : string) (level : TfLogLevel)
    : Process → Result unit * Process :=
  on_default tid (logMessage msg level).

Definition logSession (tid : nat) (status : TfSessionStatus)
    (msg path : option string) : Process → Result unit * Process :=
  on_default tid (logSession status msg path).

End Globals.
End Globals.

(** ** Well-formed tags *)

(** A tag that is built of segments: it neither starts nor ends with the
    separator and has no two separators in a row. *)
Definition segmented (s : string) : bool :=
  negb (PyStr.startswith_sep s) && negb (PyStr.ends_with_sep s)
  && PyStr.no_double_sep s.

(** ** Running the monad *)

Ltac run :=
  unfold mbind, M_bind, bind, mret, M_ret, ret, raise, get_self,
    update_self, update_tls, py_assert, lift_result, outcome, exec in *;
  cbn [fst snd] in *.

(** ** A reference framing for running the logger on examples

    Each record becomes a kind byte, the step and, for a summary, the number
    of values it carries. *)

Module RefFraming.

Definition byte_of_Z (z : Z) : byte :=
  default x00 (Byte.of_N (Z.to_N (z mod 256))).

Definition frame (e : TfEvent) : bytes :=
  match e with
  | EvHeader s _ => [x01; byte_of_Z s]
  | EvSummary s vals => [x02; byte_of_Z s; byte_of_Z (Z.of_nat (size vals))]
  | EvSessionLog s _ _ _ => [x03; byte_of_Z s]
  | EvLogMessage s _ _ => [x04; byte_of_Z s]
  end.

Definition metadata_of (dn de pn pc : option string) : option TfMetadata :=
  match dn, de, pn, pc with
  | None, None, None, None => None
  | _, _, _, _ =>
      Some {| displayName := dn; description := de;
              pluginName := pn; pluginContent := pc |}
  end.

#[export] Instance tf : TfEvents :=
  {| asRecordByteArray := frame;
     convert_metadata := metadata_of;
     scale_to_uint8 a :=
       {| shape := shape a; is_uint8 := true; elems := elems a |};
     png_encode _ _ _ a := Ok (elems a) |}.

(** A reference [wave] and [tfevents] for the other payloads: frames are
    taken from an array, tensors and histograms from text, arrays and
    numbers, and anything else is refused as of the wrong type. *)
Definition bytes_of_object (x : PyObject) : Result bytes :=
  match x with
  | PyText s => Ok (String.list_byte_of_string s)
  | PyArray a => Ok (elems a)
  | PyNumber _ => Ok [x00]
  | PyOther _ => Raise TypeError
  end.

#[export] Instance media : TfMedia :=
  {| wave_encode _ _ frames :=
       match frames with
       | PyArray a => Ok (elems a)
       | _ => Raise TypeError
       end;
     tensor_content x _ := bytes_of_object x;
     histogram_content x _ :=
       match x with
       | PyText _ => Raise TypeError
       | _ => bytes_of_object x
       end |}.

Definition disk0 : Disk :=
  {| files := ∅; dirs := {["logs"]}; writable := true |}.

(** A fresh logger in ["logs"], as [EventLogger_init] leaves it. *)
Definition fresh (step : option Z) (flushSecs : option Q) : Logger :=
  match EventLogger_init "logs" step flushSecs
          "000000001700000000.000000000" "u" disk0 with
  | Ok l => l
  | Raise _ => NullEventLogger_init
  end.

Definition world0 (l : Logger) : World :=
  {| tls := ∅; self := l; disk := disk0 |}.

Definition loss (x : Q) : TfValue :=
  {| vtag := "loss"; payload := SimpleValue x; metadata := None |}.

(** A fresh logger with flushing disabled, nothing pending. *)
Definition w_fresh : World := world0 (fresh None None).

(** The same with one value pending at step 5. *)
Definition w_pending : World :=
  exec (record "loss" (loss (1 # 2))) (world0 (fresh (Some 5) None)).

(** A logger with a flush interval whose daemon is running, on a disk that
    refuses writes. *)
Definition w_refusing : World :=
  set_disk (fun d => {| files := files d; dirs := dirs d; writable := false |})
    (exec (appendBuffer [x09]) (world0 (fresh None (Some (60 # 1))))).

Definition repaired (w : World) : World :=
  set_disk (fun d => {| files := files d; dirs := dirs d; writable := true |}) w.

Definition log_path : string :=
  "logs/tfevents.000000001700000000.000000000.u.out".

End RefFraming.

(** ** Sample traces on the reference framing *)

Module RefTraces.

Import RefFraming.

(** Two scalars under one tag, a flush on a disk that refuses it, steps, a
    message, a wake-up; no step is set. *)
Definition trace0 : list Op :=
  [ OLogScalar 0 "loss" (ScalarNum (1 # 2)) (Some "Loss") None None None;
    ODisk false;
    OFlush;
    OStep None;
    OLogScalar 0 "loss" (ScalarNum (1 # 3)) (Some "Loss") None None None;
    ODisk true;
    OLogMessage "OOM" ERROR;
    OWakeup;
    OStep None ].

(** A logger with a flush interval, its daemon running, on a disk that
    accepts writes. *)
Definition w_alive : World :=
  exec (appendBuffer [x09]) (world0 (fresh None (Some (60 # 1)))).

(** The same once the logger has been disposed of. *)
Definition w_exiting : World := exec __del__ (exec (appendBuffer [x09]) w_alive).

Definition w_null : World := world0 NullEventLogger_init.

Definition loss_named : TfValue :=
  {| vtag := "loss"; payload := SimpleValue (1 # 4);
     metadata := Some {| displayName := Some "Loss"; description := None;
                         pluginName := None; pluginContent := None |} |}.

(** A body of [with logger:] that raises and one that returns, neither
    touching the stack. *)
Definition body_raises (r : gmap nat (list nat))
    : (RegistryExc + unit) * gmap nat (list nat) :=
  (inl (Builtin ValueError), r).

Definition body_returns (r : gmap nat (list nat))
    : (RegistryExc + unit) * gmap nat (list nat) :=
  (inr tt, r).

(** A process with one logger object and no logger entered anywhere. *)
Definition p_idle : Process :=
  {| heap := fun _ => fresh None None;
     stacks := ∅;
     scopes := ∅;
     pdisk := disk0 |}.

End RefTraces.

(** * Properties *)

(** ** Separator runs *)

Module PyStrFacts.
Import PyStr.

Lemma re_sub_run_collapse s :
  re_sub_run false s = collapse_runs s
  ∧ re_sub_run true s = drop_leading_sep (collapse_runs s)
  ∧ startswith_sep (collapse_runs s) = startswith_sep s.
Proof.
  induction s as [|c r (IHf & IHt & IHs)]; [done|].
  cbn [re_sub_run collapse_runs startswith_sep].
  destruct (Ascii.eqb c sep) eqn:Hc; cbn [andb].
  - rewrite IHt. destruct (startswith_sep r) eqn:Hr.
    + destruct (collapse_runs r) as [|d r']; [done|].
      cbn in IHs. cbn [drop_leading_sep startswith_sep]. rewrite IHs.
      apply Ascii.eqb_eq in IHs as ->. done.
    + cbn [drop_leading_sep startswith_sep]. rewrite Hc.
      apply Ascii.eqb_eq in Hc as ->.
      destruct (collapse_runs r) as [|d r']; [done|].
      cbn in IHs. cbn [drop_leading_sep]. by rewrite IHs.
  - rewrite IHf. cbn [drop_leading_sep startswith_sep]. by rewrite Hc.
Qed.

Lemma re_sub_seps_collapse s : re_sub_seps s = collapse_runs s.
Proof. apply re_sub_run_collapse. Qed.

Lemma re_sub_run_no_double b s :
  no_double_sep (re_sub_run b s) = true
  ∧ startswith_sep (re_sub_run true s) = false.
Proof.
  revert b. induction s as [|c r IH]; intros b; [done|].
  cbn [re_sub_run]. destruct (Ascii.eqb c sep) eqn:Hc.
  - destruct (IH true) as [Hn Hs]. split; [|done].
    destruct b; [done|]. cbn. by rewrite ?Ascii.eqb_refl, Hs, Hn.
  - destruct (IH false) as [Hn _]. split; [|by cbn; rewrite Hc].
    destruct b; cbn; by rewrite Hc, Hn.
Qed.

Lemma re_sub_seps_no_double s : no_double_sep (re_sub_seps s) = true.
Proof. apply re_sub_run_no_double. Qed.

Lemma re_sub_run_without_seps b s :
  without_seps (re_sub_run b s) = without_seps s.
Proof.
  revert b. induction s as [|c r IH]; intros b; [done|].
  cbn [re_sub_run without_seps]. destruct (Ascii.eqb c sep) eqn:Hc.
  - destruct b; [apply IH|]. cbn. rewrite ?Ascii.eqb_refl. apply IH.
  - cbn. rewrite Hc. by rewrite IH.
Qed.

Lemma re_sub_seps_fixes s : no_double_sep s = true → re_sub_seps s = s.
Proof.
  rewrite re_sub_seps_collapse.
  induction s as [|c r IH]; [done|]. cbn.
  destruct (Ascii.eqb c sep && startswith_sep r)%bool; [done|].
  cbn. intros Hr. by rewrite IH.
Qed.

Lemma re_sub_seps_startswith s :
  startswith_sep (re_sub_seps s) = startswith_sep s.
Proof. rewrite re_sub_seps_collapse. apply re_sub_run_collapse. Qed.

End PyStrFacts.

(** ** [float] on sample numbers *)

Module PyFloatFacts.

Import PyFloat.

(** Numbers a double holds are kept; the others go to the nearest double,
    a tie to the one whose last bit is zero; the largest double is
    [2 ^ 1024 - 2 ^ 971], and what is not nearer to it than to [2 ^ 1024]
    overflows. *)
Lemma double_of_Q_samples :
  double_of_Q 0 = Some 0%Q
  ∧ double_of_Q 1 = Some 1%Q
  ∧ double_of_Q (1 # 2) = Some (1 # 2)%Q
  ∧ double_of_Q (- 3 # 4) = Some (- 3 # 4)%Q
  ∧ double_of_Q (1 # 10) = Some (3602879701896397 # 2 ^ 55)%Q
  ∧ double_of_Q (2 ^ 53 + 1 # 1) = Some (2 ^ 53 # 1)%Q
  ∧ double_of_Q (2 ^ 53 + 3 # 1) = Some (2 ^ 53 + 4 # 1)%Q
  ∧ double_of_Q (10 ^ 17 + 1 # 1) = Some (10 ^ 17 # 1)%Q
  ∧ double_of_Q (2 ^ 1024 - 2 ^ 971 # 1) = Some (2 ^ 1024 - 2 ^ 971 # 1)%Q
  ∧ double_of_Q (2 ^ 1024 - 2 ^ 970 - 1 # 1) = Some (2 ^ 1024 - 2 ^ 971 # 1)%Q
  ∧ double_of_Q (2 ^ 1024 - 2 ^ 970 # 1) = None
  ∧ double_of_Q (10 ^ 400 # 1) = None
  ∧ double_of_Q (1 # 2 ^ 1074) = Some (1 # 2 ^ 1074)%Q
  ∧ double_of_Q (1 # 2 ^ 1075) = Some 0%Q.
Proof. vm_compute. repeat split. Qed.

End PyFloatFacts.

(** ** The scope stack of a thread *)

Section ScopeFacts.

Implicit Types (w : World) (tid : nat) (st names : list string).

Lemma stack_of_with_stack tid st w : stack_of (with_stack tid st w) tid = st.
Proof. unfold stack_of, with_stack; cbn. by rewrite lookup_insert_eq. Qed.

Lemma stack_of_with_stack_ne tid t st w :
  t ≠ tid → stack_of (with_stack tid st w) t = stack_of w t.
Proof.
  intros Hne. unfold stack_of, with_stack; cbn.
  by rewrite lookup_insert_ne.
Qed.

Lemma with_stack_twice tid st st' w :
  with_stack tid st' (with_stack tid st w) = with_stack tid st' w.
Proof. unfold with_stack, set_tls; cbn. by rewrite insert_insert_eq. Qed.

Lemma self_with_stack tid st w : self (with_stack tid st w) = self w.
Proof. done. Qed.

Lemma disk_with_stack tid st w : disk (with_stack tid st w) = disk w.
Proof. done. Qed.

Lemma tagScopePath_run tid w :
  _tagScopePath tid w = (Ok (stack_of w tid), with_stack tid (stack_of w tid) w).
Proof.
  unfold _tagScopePath, stack_of, with_stack, set_tls.
  destruct (tls w !! tid) as [st|] eqn:Hst; cbn; [|done].
  rewrite insert_id by done. by destruct w.
Qed.

Lemma scope_append_run tid x w :
  scope_append tid x w = (Ok tt, with_stack tid (stack_of w tid ++ [x]) w).
Proof.
  unfold scope_append. run. rewrite tagScopePath_run.
  fold (with_stack tid (stack_of w tid ++ [x])
          (with_stack tid (stack_of w tid) w)).
  by rewrite with_stack_twice.
Qed.

Lemma scope_pop_run tid st x w :
  stack_of w tid = st ++ [x] →
  scope_pop tid w = (Ok tt, with_stack tid st w).
Proof.
  intros Hst. unfold scope_pop. run. rewrite tagScopePath_run, Hst.
  destruct (st ++ [x]) as [|y l] eqn:Hl; [by destruct st|].
  rewrite <- Hl, removelast_last.
  fold (with_stack tid st (with_stack tid (st ++ [x]) w)).
  by rewrite with_stack_twice.
Qed.

Lemma scope_pop_empty tid w :
  stack_of w tid = [] → outcome (scope_pop tid) w = Raise IndexError.
Proof.
  intros Hst. unfold scope_pop. run. by rewrite tagScopePath_run, Hst.
Qed.

Lemma check_groupName_run ver g w :
  check_groupName ver g w =
  (if name_ok ver g then Ok tt else Raise AssertionError, w).
Proof.
  unfold check_groupName, name_ok. run.
  destruct (isinstance_str_after_encode ver); [|done].
  destruct (String.eqb g EmptyString); [done|].
  by destruct (PyStr.contains_sep g).
Qed.

Lemma check_names_run ver names w :
  for_each names (check_groupName ver) w =
  (if names_ok ver names then Ok tt else Raise AssertionError, w).
Proof.
  induction names as [|g rest IH]; [done|].
  cbn [for_each names_ok forallb].
  unfold mbind, M_bind, bind. rewrite check_groupName_run.
  destruct (name_ok ver g); [|done]. apply IH.
Qed.

Lemma push_names_run tid names w :
  for_each names (scope_append tid) w =
  (Ok tt, match names with
          | [] => w
          | _ :: _ => with_stack tid (stack_of w tid ++ names) w
          end).
Proof.
  revert w. induction names as [|x rest IH]; intros w; [done|].
  cbn [for_each]. run. rewrite scope_append_run, IH.
  destruct rest as [|y rest]; [done|].
  by rewrite stack_of_with_stack, with_stack_twice, <- app_assoc.
Qed.

Lemma pop_names_run {A} tid (xs : list A) ext st w :
  length xs = length ext →
  stack_of w tid = st ++ ext →
  for_each xs (fun _ => scope_pop tid) w =
  (Ok tt, match xs with [] => w | _ :: _ => with_stack tid st w end).
Proof.
  revert ext w. induction xs as [|x rest IH]; intros ext w Hlen Hst; [done|].
  induction ext as [|y ext' _] using rev_ind; [done|].
  rewrite length_app in Hlen. cbn in Hlen.
  cbn [for_each]. run.
  rewrite (scope_pop_run tid (st ++ ext') y) by by rewrite <- app_assoc.
  rewrite (IH ext'); [|lia|by rewrite stack_of_with_stack].
  destruct rest as [|z rest]; [|by rewrite with_stack_twice].
  destruct ext'; [by rewrite app_nil_r|cbn in Hlen; lia].
Qed.

(** Entering a scope: the checks run first, on every name; only then are
    the names pushed. *)
Lemma tagscope_enter_run ver tid names w :
  before_yield (tagscope ver tid names) w =
  if names_ok ver names
  then (Ok tt, match names with
               | [] => w
               | _ :: _ => with_stack tid (stack_of w tid ++ names) w
               end)
  else (Raise AssertionError, w).
Proof.
  cbn [before_yield tagscope]. run. rewrite check_names_run.
  destruct (names_ok ver names); [|done]. apply push_names_run.
Qed.

Lemma getFullTag_run tid tag w :
  getFullTag tid tag w =
  if PyStr.startswith_sep tag then (Raise AssertionError, w)
  else (Ok (PyStr.join (stack_of w tid ++ [PyStr.re_sub_seps tag])),
        with_stack tid (stack_of w tid) w).
Proof.
  unfold getFullTag. run.
  destruct (PyStr.startswith_sep tag); [done|]. cbn.
  by rewrite tagScopePath_run.
Qed.

End ScopeFacts.

(** ** Scoped blocks *)

Section ScopedBlocks.

Implicit Types (w : World) (tid : nat) (st names : list string).

Lemma stack_of_entered tid names w :
  stack_of (entered tid names w) tid = stack_of w tid ++ names.
Proof.
  destruct names; cbn [entered]; [by rewrite app_nil_r|].
  apply stack_of_with_stack.
Qed.

Lemma stack_of_entered_ne tid t names w :
  t ≠ tid → stack_of (entered tid names w) t = stack_of w t.
Proof.
  intros Hne. destruct names; [done|]. by apply stack_of_with_stack_ne.
Qed.

Lemma stack_of_left_scope tid names st w :
  stack_of w tid = st ++ names →
  stack_of (left_scope tid names st w) tid = st.
Proof.
  destruct names; cbn [left_scope]; [by rewrite app_nil_r|].
  intros _. apply stack_of_with_stack.
Qed.

Lemma stack_of_with_self l w tid : stack_of (with_self l w) tid = stack_of w tid.
Proof. done. Qed.

(** A body that returns: the names are popped, the stack is as before. *)
Lemma py_with_tagscope_returns {A} ver tid names (body : M A) w a w2 :
  names_ok ver names = true →
  body (entered tid names w) = (Ok a, w2) →
  stack_of w2 tid = stack_of w tid ++ names →
  py_with (tagscope ver tid names) body w =
  (Ok a, left_scope tid names (stack_of w tid) w2).
Proof.
  intros Hok Hbody Hst. unfold py_with, resume_after.
  unfold mbind at 1. unfold M_bind, bind.
  rewrite tagscope_enter_run, Hok. fold (entered tid names w).
  rewrite Hbody. unfold mbind, M_bind, bind.
  cbn [after_yield tagscope].
  by rewrite (pop_names_run tid names names (stack_of w tid) w2).
Qed.

(** A body that raises: the exception passes through and nothing is
    popped. *)
Lemma py_with_tagscope_raises {A} ver tid names (body : M A) w e w2 :
  names_ok ver names = true →
  body (entered tid names w) = (Raise e, w2) →
  py_with (tagscope ver tid names) body w = (Raise e, w2).
Proof.
  intros Hok Hbody. unfold py_with, resume_after.
  unfold mbind, M_bind, bind.
  rewrite tagscope_enter_run, Hok. fold (entered tid names w).
  by rewrite Hbody.
Qed.

(** Names that fail a check: nothing is pushed. *)
Lemma py_with_tagscope_rejects {A} ver tid names (body : M A) w :
  names_ok ver names = false →
  py_with (tagscope ver tid names) body w = (Raise AssertionError, w).
Proof.
  intros Hok. unfold py_with. unfold mbind, M_bind, bind.
  by rewrite tagscope_enter_run, Hok.
Qed.

Lemma python3_rejects_every_name names :
  names ≠ [] → names_ok Py3 names = false.
Proof. by destruct names. Qed.

Lemma python2_name_ok g :
  name_ok Py2 g = true ↔ g ≠ EmptyString ∧ PyStr.contains_sep g = false.
Proof.
  unfold name_ok. cbn. rewrite andb_true_iff, !negb_true_iff.
  by rewrite String.eqb_neq.
Qed.

Lemma string_length_app (s t : string) :
  String.length (s +:+ t) = (String.length s + String.length t)%nat.
Proof. induction s as [|c s IH]; [done|]. simpl. by f_equal. Qed.

Lemma join_length parts :
  String.length (PyStr.join parts) =
  (list_sum (String.length <$> parts) + pred (List.length parts))%nat.
Proof.
  induction parts as [|p rest IH]; [done|].
  destruct rest as [|q rest]; [cbn; lia|].
  change (PyStr.join (p :: q :: rest))
    with (p +:+ String PyStr.sep (PyStr.join (q :: rest))).
  rewrite string_length_app. cbn [String.length]. rewrite IH.
  cbn. lia.
Qed.

Lemma join_scope_longer st names t :
  names ≠ [] →
  PyStr.join (st ++ names ++ [t]) ≠ PyStr.join (st ++ [t]).
Proof.
  intros Hne Heq. apply (f_equal String.length) in Heq.
  rewrite !join_length, !fmap_app, !list_sum_app, !length_app in Heq.
  destruct names as [|n names]; [done|]. cbn in Heq. lia.
Qed.

End ScopedBlocks.

(** ** What each method does to a logger *)

Section Effects.

Context `{TfEvents}.

Implicit Types (w : World) (l : Logger).

Lemma with_self_id w : with_self (self w) w = w.
Proof. by destruct w. Qed.

Lemma cls_spawned l : cls (spawned l) = cls l.
Proof. unfold spawned. by destruct (_flushSecs l), (_daemonThread l). Qed.

Lemma buffer_spawned l : __bytebuffer (spawned l) = __bytebuffer l.
Proof. unfold spawned. by destruct (_flushSecs l), (_daemonThread l). Qed.

Lemma values_spawned l : _values (spawned l) = _values l.
Proof. unfold spawned. by destruct (_flushSecs l), (_daemonThread l). Qed.

Lemma step_spawned l : _currentStep (spawned l) = _currentStep l.
Proof. unfold spawned. by destruct (_flushSecs l), (_daemonThread l). Qed.

Lemma metadata_spawned l : _metadata (spawned l) = _metadata l.
Proof. unfold spawned. by destruct (_flushSecs l), (_daemonThread l). Qed.

Lemma cls_drained l : cls (drained l) = cls l.
Proof.
  unfold drained, appended. case_bool_decide; [done|]. cbn.
  by rewrite cls_spawned.
Qed.

Lemma buffer_drained l :
  __bytebuffer (drained l) = __bytebuffer l ++ summary_bytes l.
Proof.
  unfold drained, summary_bytes, appended.
  case_bool_decide; [by rewrite app_nil_r|]. cbn.
  by rewrite buffer_spawned.
Qed.

Lemma values_drained l : _values (drained l) = ∅.
Proof. unfold drained. by case_bool_decide. Qed.

Lemma step_drained l : _currentStep (drained l) = _currentStep l.
Proof.
  unfold drained, appended. case_bool_decide; [done|]. cbn.
  by rewrite step_spawned.
Qed.

Lemma metadata_drained l : _metadata (drained l) = _metadata l.
Proof.
  unfold drained, appended. case_bool_decide; [done|]. cbn.
  by rewrite metadata_spawned.
Qed.

Lemma drained_idle l : _values l = ∅ → drained l = l.
Proof. intros Hv. unfold drained. by rewrite bool_decide_eq_true_2. Qed.

Lemma _spawnDaemonThread_run w :
  cls (self w) = EventLogger →
  _spawnDaemonThread w = (Ok tt, with_self (spawned (self w)) w).
Proof.
  intros Hcls. unfold _spawnDaemonThread, spawned. run. rewrite Hcls.
  destruct (_flushSecs (self w)), (_daemonThread (self w)); cbn;
    by rewrite ?with_self_id.
Qed.

Lemma appendBuffer_run b w :
  cls (self w) = EventLogger →
  appendBuffer b w = (Ok tt, with_self (appended b (self w)) w).
Proof.
  intros Hcls. unfold appendBuffer. run. rewrite Hcls.
  by rewrite _spawnDaemonThread_run.
Qed.

Lemma appendSummary_run w :
  cls (self w) = EventLogger →
  appendSummary w = (Ok tt, with_self (drained (self w)) w).
Proof.
  intros Hcls. unfold appendSummary, drained. run.
  case_bool_decide; [by rewrite with_self_id|].
  by rewrite appendBuffer_run.
Qed.

Lemma maybeForceAppend_run tag w :
  cls (self w) = EventLogger →
  __maybeForceAppend tag w = (Ok tt, with_self (forced tag (self w)) w).
Proof.
  intros Hcls. unfold __maybeForceAppend, forced. run.
  case_bool_decide; [by apply appendSummary_run|by rewrite with_self_id].
Qed.

Lemma recordValue_run tag val w :
  cls (self w) = EventLogger →
  recordValue TagIsStr tag (IsTfValue val) w =
  (Ok tt, with_self (recorded tag val (self w)) w).
Proof. intros Hcls. unfold recordValue. run. by rewrite Hcls. Qed.

Lemma recordValue_unicode_run tag val w :
  cls (self w) = EventLogger →
  recordValue TagIsUnicode tag val w = (Raise AssertionError, w).
Proof. intros Hcls. unfold recordValue. run. by rewrite Hcls. Qed.

Lemma recordValue_other_run ty tag w :
  cls (self w) = EventLogger →
  recordValue ty tag NotTfValue w = (Raise AssertionError, w).
Proof.
  intros Hcls. unfold recordValue. run. rewrite Hcls. by destruct ty.
Qed.

Lemma cls_forced tag l : cls (forced tag l) = cls l.
Proof. unfold forced. case_bool_decide; [apply cls_drained|done]. Qed.

Lemma record_run tag val w :
  cls (self w) = EventLogger →
  record tag val w =
  (Ok tt, with_self (recorded tag val (forced tag (self w))) w).
Proof.
  intros Hcls. unfold record, record_with. run.
  rewrite maybeForceAppend_run by done.
  rewrite recordValue_run by (cbn; by rewrite cls_forced). done.
Qed.

Lemma record_with_unicode_run tag val w :
  cls (self w) = EventLogger →
  record_with TagIsUnicode tag val w =
  (Raise AssertionError, with_self (forced tag (self w)) w).
Proof.
  intros Hcls. unfold record_with. run.
  rewrite maybeForceAppend_run by done.
  rewrite recordValue_unicode_run by (cbn; by rewrite cls_forced). done.
Qed.

Lemma flush_run w :
  cls (self w) = EventLogger →
  flush w =
  let l := drained (self w) in
  match __bytebuffer l with
  | [] => (Ok tt, with_self l w)
  | _ :: _ =>
      if writable (disk w)
      then (Ok tt,
            {| tls := tls w;
               self := with_bytebuffer [] l;
               disk := written (_logFilePath l) (__bytebuffer l) (disk w) |})
      else (Raise IOError, with_self l w)
  end.
Proof.
  intros Hcls. unfold flush. run. rewrite Hcls.
  rewrite appendSummary_run by done. cbn.
  destruct (__bytebuffer (drained (self w))) as [|b0 bs] eqn:Hb; [done|].
  unfold file_append. cbn.
  destruct (writable (disk w)) eqn:Hw; [|done].
  unfold set_self, set_disk, with_self. cbn. by rewrite Hw.
Qed.

End Effects.

(** ** Step controller, forced flushes and the value batch *)

Section StepAndFlush.

Context `{TfEvents}.
Implicit Types (w : World) (l : Logger).

Lemma logFilePath_spawned l : _logFilePath (spawned l) = _logFilePath l.
Proof. unfold spawned. by destruct (_flushSecs l), (_daemonThread l). Qed.

Lemma logFilePath_drained l : _logFilePath (drained l) = _logFilePath l.
Proof.
  unfold drained, appended. case_bool_decide; [done|].
  by rewrite <- (logFilePath_spawned
    (with_bytebuffer (__bytebuffer l ++
       asRecordByteArray (EvSummary (_currentStep l) (_values l))) l)).
Qed.

Lemma summary_bytes_drained l : summary_bytes (drained l) = [].
Proof.
  unfold summary_bytes. by rewrite values_drained, bool_decide_eq_true_2.
Qed.

Lemma file_size_written path data d :
  file_size path (written path data d) =
  (file_size path d + List.length data)%nat.
Proof.
  unfold file_size, written. destruct data as [|b bs]; [cbn; lia|].
  cbn [files]. rewrite lookup_insert_eq. simpl. by rewrite length_app.
Qed.

(** [flush] on a world whose disk accepts the write. *)
Lemma flush_writable w :
  cls (self w) = EventLogger →
  writable (disk w) = true →
  flush w =
  (Ok tt,
   {| tls := tls w;
      self := with_bytebuffer [] (drained (self w));
      disk := written (_logFilePath (self w))
                (__bytebuffer (self w) ++ summary_bytes (self w)) (disk w) |}).
Proof.
  intros Hcls Hw. rewrite flush_run by done. cbn zeta.
  rewrite logFilePath_drained, Hw, buffer_drained.
  destruct (__bytebuffer (self w) ++ summary_bytes (self w)) eqn:Hb; [|done].
  cbn [written]. unfold with_self, set_self. do 2 f_equal.
  assert (__bytebuffer (drained (self w)) = []) as Hd
    by by rewrite buffer_drained.
  revert Hd. by destruct (drained (self w)); cbn; intros ->.
Qed.

(** [flush] on a world whose disk refuses the write, with data to write. *)
Lemma flush_refused w :
  cls (self w) = EventLogger →
  writable (disk w) = false →
  __bytebuffer (self w) ++ summary_bytes (self w) ≠ [] →
  flush w = (Raise IOError, with_self (drained (self w)) w).
Proof.
  intros Hcls Hw Hne. rewrite flush_run by done. cbn zeta.
  rewrite buffer_drained, Hw.
  by destruct (__bytebuffer (self w) ++ summary_bytes (self w)).
Qed.

Lemma step_advance_run w :
  cls (self w) = EventLogger →
  step None w =
  (Ok tt,
   with_self (with_step (_currentStep (self w) + 1) (drained (self w))) w).
Proof.
  intros Hcls. unfold step. run. rewrite Hcls.
  rewrite appendSummary_run by done. cbn.
  unfold with_self, set_self. cbn. by rewrite step_drained.
Qed.

(** C5: a step call without a value commits the pending batch as one
    summary record tagged with the step that was current before the call,
    and then adds exactly one to the step counter.  With an empty batch
    the buffer stays as it is and the counter still moves.  Nothing is
    pending afterwards, so no value is carried over to the new step. *)
Theorem advance_drains_then_increments w :
  cls (self w) = EventLogger →
  let w' := exec (step None) w in
  outcome (step None) w = Ok tt
  ∧ __bytebuffer (self w') =
      __bytebuffer (self w) ++
      (if bool_decide (_values (self w) = ∅) then []
       else asRecordByteArray
              (EvSummary (_currentStep (self w)) (_values (self w))))
  ∧ (_values (self w) = ∅ → __bytebuffer (self w') = __bytebuffer (self w))
  ∧ _values (self w') = ∅
  ∧ _currentStep (self w') = _currentStep (self w) + 1
  ∧ disk w' = disk w.
Proof.
  intros Hcls w'. subst w'. run. rewrite step_advance_run by done. cbn.
  rewrite buffer_drained, values_drained. unfold summary_bytes.
  repeat split; try done.
  intros ->. by rewrite bool_decide_eq_true_2, app_nil_r.
Qed.

(** C4: a step call with the value [k] first commits the pending batch
    under the old step and writes the whole buffer to the log file, and
    only then sets the counter to [k], for every integer [k], below the
    current step or not.  When the write fails the counter keeps its old
    value. *)
Theorem setStep_flushes_then_sets k w :
  cls (self w) = EventLogger →
  let pending :=
    __bytebuffer (self w) ++
    (if bool_decide (_values (self w) = ∅) then []
     else asRecordByteArray
            (EvSummary (_currentStep (self w)) (_values (self w)))) in
  let w' := exec (step (Some k)) w in
  (writable (disk w) = true →
     outcome (step (Some k)) w = Ok tt
     ∧ disk w' = written (_logFilePath (self w)) pending (disk w)
     ∧ file_size (_logFilePath (self w)) (disk w') =
         (file_size (_logFilePath (self w)) (disk w) + List.length pending)%nat
     ∧ __bytebuffer (self w') = []
     ∧ _values (self w') = ∅
     ∧ _currentStep (self w') = k)
  ∧ (writable (disk w) = false → pending ≠ [] →
     outcome (step (Some k)) w = Raise IOError
     ∧ disk w' = disk w
     ∧ __bytebuffer (self w') = pending
     ∧ _currentStep (self w') = _currentStep (self w)).
Proof.
  intros Hcls pending w'. subst pending w'.
  fold (summary_bytes (self w)). unfold step. run. rewrite Hcls. split.
  - intros Hw. rewrite flush_writable by done. cbn.
    rewrite file_size_written, values_drained. done.
  - intros Hw Hne. rewrite flush_refused by done. cbn.
    by rewrite buffer_drained, step_drained.
Qed.

Lemma cls_appended b l : cls (appended b l) = cls l.
Proof. unfold appended. by rewrite cls_spawned. Qed.

Lemma buffer_appended b l : __bytebuffer (appended b l) = __bytebuffer l ++ b.
Proof. unfold appended. by rewrite buffer_spawned. Qed.

Lemma values_appended b l : _values (appended b l) = _values l.
Proof. unfold appended. by rewrite values_spawned. Qed.

Lemma step_appended b l : _currentStep (appended b l) = _currentStep l.
Proof. unfold appended. by rewrite step_spawned. Qed.

Lemma logFilePath_appended b l : _logFilePath (appended b l) = _logFilePath l.
Proof. unfold appended. by rewrite logFilePath_spawned. Qed.

(** What [logMessage] and [logSession] share: drain, append one record
    built at the current step, flush. *)
Lemma drain_append_flush_run (mk : Z → TfEvent) w :
  cls (self w) = EventLogger →
  writable (disk w) = true →
  (appendSummary;;
   l ← get_self;
   appendBuffer (asRecordByteArray (mk (_currentStep l)));;
   flush) w =
  (Ok tt,
   {| tls := tls w;
      self := with_bytebuffer []
                (appended (asRecordByteArray (mk (_currentStep (self w))))
                   (drained (self w)));
      disk := written (_logFilePath (self w))
                (__bytebuffer (self w) ++ summary_bytes (self w) ++
                 asRecordByteArray (mk (_currentStep (self w))))
                (disk w) |}).
Proof.
  intros Hcls Hw. run. rewrite appendSummary_run by done. cbn.
  rewrite appendBuffer_run by (cbn; by rewrite cls_drained). cbn.
  rewrite step_drained.
  set (rec := asRecordByteArray (mk (_currentStep (self w)))).
  rewrite flush_writable;
    [|cbn; by rewrite cls_appended, cls_drained|done].
  cbn. rewrite logFilePath_appended, logFilePath_drained, buffer_appended,
    buffer_drained.
  assert (_values (appended rec (drained (self w))) = ∅) as Hv
    by by rewrite values_appended, values_drained.
  rewrite (drained_idle _ Hv). unfold summary_bytes at 2.
  rewrite Hv, bool_decide_eq_true_2 by done.
  by rewrite app_nil_r, <- app_assoc.
Qed.

(** C3: a log message and a session status change each commit the pending
    batch, append their own record after it, and write the whole buffer to
    the log file within the call, whatever flush interval the logger was
    built with, none included.  The file grows by at least the record,
    with no call to [flush] by the caller. *)
Theorem message_and_session_force_flush msg level status smsg spath w :
  cls (self w) = EventLogger →
  writable (disk w) = true →
  let s := _currentStep (self w) in
  let path := _logFilePath (self w) in
  let before :=
    __bytebuffer (self w) ++
    (if bool_decide (_values (self w) = ∅) then []
     else asRecordByteArray (EvSummary s (_values (self w)))) in
  (let rec := asRecordByteArray (EvLogMessage s msg level) in
   let w' := exec (logMessage msg level) w in
   outcome (logMessage msg level) w = Ok tt
   ∧ disk w' = written path (before ++ rec) (disk w)
   ∧ file_size path (disk w') =
       (file_size path (disk w) + List.length before + List.length rec)%nat
   ∧ __bytebuffer (self w') = []
   ∧ _values (self w') = ∅
   ∧ _currentStep (self w') = s)
  ∧ (let rec := asRecordByteArray (EvSessionLog s status smsg spath) in
     let w' := exec (logSession status smsg spath) w in
     outcome (logSession status smsg spath) w = Ok tt
     ∧ disk w' = written path (before ++ rec) (disk w)
     ∧ file_size path (disk w') =
         (file_size path (disk w) + List.length before + List.length rec)%nat
     ∧ __bytebuffer (self w') = []
     ∧ _values (self w') = ∅
     ∧ _currentStep (self w') = s).
Proof.
  intros Hcls Hw s path before. subst s path before.
  fold (summary_bytes (self w)). split.
  - intros rec w'. subst rec w'. unfold logMessage, outcome, exec.
    rewrite (drain_append_flush_run (fun s => EvLogMessage s msg level))
      by done.
    cbn. rewrite file_size_written, values_appended, values_drained,
      step_appended, step_drained, <- app_assoc, !length_app.
    repeat split; try done. lia.
  - intros rec w'. subst rec w'. unfold logSession, outcome, exec.
    rewrite (drain_append_flush_run
               (fun s => EvSessionLog s status smsg spath)) by done.
    cbn. rewrite file_size_written, values_appended, values_drained,
      step_appended, step_drained, <- app_assoc, !length_app.
    repeat split; try done. lia.
Qed.

(** C1: two values recorded under one tag, with nothing in between, leave
    two summary records in call order.  The second call commits the batch
    that holds the first value before it stores its own, so the buffer
    then ends with a summary whose entry for the tag is the first value;
    the batch holds the second value alone, and the next drain appends it
    as a second summary.  Each summary maps the tag to one value. *)
Theorem same_tag_twice_two_summaries tag v1 v2 w :
  cls (self w) = EventLogger →
  let s := _currentStep (self w) in
  let w1 := exec (record tag v1) w in
  let w2 := exec (record tag v2) w1 in
  let w3 := exec appendSummary w2 in
  let first := if bool_decide (tag ∈ _metadata (self w))
               then del_metadata v1 else v1 in
  let second := del_metadata v2 in
  _values (self w1) !! tag = Some first
  ∧ __bytebuffer (self w2) =
      __bytebuffer (self w1) ++
      asRecordByteArray (EvSummary s (_values (self w1)))
  ∧ _values (self w2) = {[tag := second]}
  ∧ __bytebuffer (self w3) =
      __bytebuffer (self w1) ++
      asRecordByteArray (EvSummary s (_values (self w1))) ++
      asRecordByteArray (EvSummary s {[tag := second]})
  ∧ _values (self w3) = ∅
  ∧ _currentStep (self w3) = s.
Proof.
  intros Hcls s w1 w2 w3 first second.
  assert (Hw1 : w1 = with_self (recorded tag v1 (forced tag (self w))) w)
    by (subst w1; unfold exec; by rewrite record_run).
  set (l1 := recorded tag v1 (forced tag (self w))) in *.
  assert (Hmeta : _metadata (forced tag (self w)) = _metadata (self w)).
  { unfold forced. case_bool_decide; [apply metadata_drained|done]. }
  assert (Hstep0 : _currentStep (forced tag (self w)) = s).
  { unfold forced. case_bool_decide; [apply step_drained|done]. }
  assert (Hcls1 : cls l1 = EventLogger) by (cbn; by rewrite cls_forced).
  assert (Hv1 : _values l1 !! tag = Some first).
  { subst l1 first. cbn. by rewrite lookup_insert_eq, Hmeta. }
  assert (Hne1 : _values l1 ≠ ∅).
  { intros He. by rewrite He, lookup_empty in Hv1. }
  assert (Hseen : tag ∈ _metadata l1).
  { subst l1. cbn. apply elem_of_union. left. by apply elem_of_singleton. }
  assert (Hstep1 : _currentStep l1 = s) by done.
  assert (Hf : forced tag l1 = drained l1).
  { unfold forced. by rewrite bool_decide_eq_true_2 by by rewrite Hv1. }
  assert (Hw2 : w2 = with_self (recorded tag v2 (drained l1)) w).
  { subst w2. unfold exec. rewrite Hw1, record_run by done. cbn.
    by rewrite Hf. }
  set (l2 := recorded tag v2 (drained l1)) in *.
  assert (Hv2 : _values l2 = {[tag := second]}).
  { subst l2 second. cbn. rewrite values_drained, metadata_drained.
    by rewrite bool_decide_eq_true_2, insert_empty by done. }
  assert (Hb2 : __bytebuffer l2 =
                __bytebuffer l1 ++ asRecordByteArray (EvSummary s (_values l1))).
  { subst l2. cbn. rewrite buffer_drained. unfold summary_bytes.
    by rewrite bool_decide_eq_false_2, Hstep1 by done. }
  assert (Hstep2 : _currentStep l2 = s)
    by (subst l2; cbn; by rewrite step_drained).
  assert (Hw3 : w3 = with_self (drained l2) w).
  { subst w3. unfold exec. rewrite Hw2, appendSummary_run; [done|].
    cbn. by rewrite cls_drained. }
  rewrite Hw1, Hw2, Hw3. cbn [self with_self set_self].
  repeat split; try done.
  - rewrite buffer_drained, Hb2. unfold summary_bytes.
    rewrite bool_decide_eq_false_2, Hv2, Hstep2, <- app_assoc; [done|].
    rewrite Hv2. apply insert_non_empty.
  - apply values_drained.
  - by rewrite step_drained.
Qed.

End StepAndFlush.

(** ** Tag resolution inside and outside scopes *)

Section TagResolution.

Implicit Types (w : World) (tid : nat) (st names : list string).

Lemma resolve_in_scope ver tid names tag w :
  names_ok ver names = true →
  PyStr.startswith_sep tag = false →
  ∃ w',
    py_with (tagscope ver tid names) (getFullTag tid tag) w =
    (Ok (PyStr.join (stack_of w tid ++ names ++ [PyStr.re_sub_seps tag])), w')
    ∧ stack_of w' tid = stack_of w tid
    ∧ (∀ t, t ≠ tid → stack_of w' t = stack_of w t)
    ∧ self w' = self w
    ∧ disk w' = disk w.
Proof.
  intros Hok Htag.
  set (w1 := entered tid names w).
  set (w2 := with_stack tid (stack_of w1 tid) w1).
  assert (Hbody : getFullTag tid tag w1 =
            (Ok (PyStr.join (stack_of w tid ++ names ++ [PyStr.re_sub_seps tag])),
             w2)).
  { rewrite getFullTag_run, Htag. subst w1 w2.
    by rewrite stack_of_entered, <- app_assoc. }
  assert (Hst : stack_of w2 tid = stack_of w tid ++ names).
  { subst w2 w1. by rewrite stack_of_with_stack, stack_of_entered. }
  eexists. split; [by apply py_with_tagscope_returns|].
  split; [by apply stack_of_left_scope|].
  subst w2 w1. split; [|by destruct names].
  intros t Hne. destruct names as [|n names]; cbn [left_scope entered];
    by rewrite !stack_of_with_stack_ne.
Qed.

(** C6: a tag that starts with the separator is rejected; any other tag
    has each run of separators replaced by one separator and is joined,
    with the separator, after the scope stack of the calling thread.
    Inside a scope entered with two accepted names the tag [x] resolves
    to the stack, the two names and [x]; after the scope has returned it
    resolves as before.  On an empty stack these are [a/b/x] and [x]. *)
Theorem getFullTag_resolution ver tid a b tag w :
  names_ok ver [a; b] = true →
  getFullTag tid tag w =
    (if PyStr.startswith_sep tag then (Raise AssertionError, w)
     else (Ok (PyStr.join (stack_of w tid ++ [PyStr.re_sub_seps tag])),
           with_stack tid (stack_of w tid) w))
  ∧ PyStr.re_sub_seps tag = PyStr.collapse_runs tag
  ∧ PyStr.no_double_sep (PyStr.re_sub_seps tag) = true
  ∧ PyStr.without_seps (PyStr.re_sub_seps tag) =
      PyStr.without_seps tag
  ∧ outcome (py_with (tagscope ver tid [a; b]) (getFullTag tid "x")) w =
      Ok (PyStr.join (stack_of w tid ++ [a; b; "x"]))
  ∧ outcome (py_with (tagscope ver tid [a; b]) (getFullTag tid "x");;
             getFullTag tid "x") w =
      Ok (PyStr.join (stack_of w tid ++ ["x"]))
  ∧ (stack_of w tid = [] →
     outcome (py_with (tagscope ver tid [a; b]) (getFullTag tid "x")) w =
       Ok (a +:+ "/" +:+ b +:+ "/x")
     ∧ outcome (py_with (tagscope ver tid [a; b]) (getFullTag tid "x");;
                getFullTag tid "x") w = Ok "x").
Proof.
  intros Hok.
  destruct (resolve_in_scope ver tid [a; b] "x" w Hok eq_refl)
    as (w' & Hrun & Hst & _).
  assert (Hin : outcome (py_with (tagscope ver tid [a; b])
                  (getFullTag tid "x")) w =
                Ok (PyStr.join (stack_of w tid ++ [a; b; "x"])))
    by (unfold outcome; by rewrite Hrun).
  assert (Hout : outcome (py_with (tagscope ver tid [a; b])
                   (getFullTag tid "x");; getFullTag tid "x") w =
                 Ok (PyStr.join (stack_of w tid ++ ["x"]))).
  { unfold outcome, mbind, M_bind, bind. rewrite Hrun.
    by rewrite getFullTag_run, Hst. }
  split; [apply getFullTag_run|].
  split; [apply PyStrFacts.re_sub_seps_collapse|].
  split; [apply PyStrFacts.re_sub_seps_no_double|].
  split; [apply PyStrFacts.re_sub_run_without_seps|].
  split; [done|]. split; [done|].
  intros Hempty. rewrite Hin, Hout, Hempty. done.
Qed.

(** C10: the scope stack belongs to the thread, not to a logger.  Names
    pushed through the [tagscope] of one logger object prefix the tags
    that [getFullTag] of any other logger object resolves in the same
    thread, whatever the class of either object; once the scope has
    returned the other logger resolves as before, and other threads are
    never affected. *)
Theorem scope_stack_shared_by_loggers ver tid names tag (L1 L2 : Logger) w :
  names_ok ver names = true →
  names ≠ [] →
  PyStr.startswith_sep tag = false →
  let outside := outcome (getFullTag tid tag) (with_self L2 w) in
  let inside :=
    outcome (getFullTag tid tag)
      (with_self L2
         (exec (before_yield (tagscope ver tid names)) (with_self L1 w))) in
  let afterwards :=
    outcome (getFullTag tid tag)
      (with_self L2
         (exec (py_with (tagscope ver tid names) (ret tt)) (with_self L1 w))) in
  outside = Ok (PyStr.join (stack_of w tid ++ [PyStr.re_sub_seps tag]))
  ∧ inside =
      Ok (PyStr.join (stack_of w tid ++ names ++ [PyStr.re_sub_seps tag]))
  ∧ inside ≠ outside
  ∧ afterwards = outside
  ∧ (∀ t, t ≠ tid →
     outcome (getFullTag t tag)
       (with_self L2
          (exec (before_yield (tagscope ver tid names)) (with_self L1 w))) =
     outcome (getFullTag t tag) (with_self L2 w)).
Proof.
  intros Hok Hne Htag outside inside afterwards.
  subst outside inside afterwards. unfold outcome, exec.
  rewrite !getFullTag_run, Htag, tagscope_enter_run, Hok. cbn [fst snd].
  fold (entered tid names (with_self L1 w)).
  rewrite !stack_of_with_self, stack_of_entered, stack_of_with_self,
    <- app_assoc.
  split; [done|]. split; [done|].
  split; [intros [=Heq]; by apply join_scope_longer in Heq|].
  split.
  - rewrite (py_with_tagscope_returns ver tid names (ret tt) _ tt
               (entered tid names (with_self L1 w))); [|done|done|].
    + cbn [snd]. rewrite stack_of_left_scope; [done|].
      by rewrite stack_of_entered.
    + by rewrite stack_of_entered.
  - intros t Hnt. rewrite !getFullTag_run, Htag. cbn [fst].
    by rewrite !stack_of_with_self, stack_of_entered_ne.
Qed.

End TagResolution.

(** ** Construction *)

Section Construction.

Context `{TfEvents}.

(** C8, as the constructor has it: a logger built in an existing
    directory, on a path that is not taken, starts with a header record in
    its buffer, followed by a restart marker exactly when a starting step
    was passed, zero included, and by nothing when none was passed. *)
Theorem init_emits_header_then_restart logDir step flushSecs now uuid4 d :
  isdir d logDir = true →
  isfile d (PyStr.path_join logDir
              ("tfevents." +:+ now +:+ "." +:+ uuid4 +:+ ".out")) = false →
  ∃ l,
    EventLogger_init logDir step flushSecs now uuid4 d = Ok l
    ∧ _currentStep l = default 0 step
    ∧ __bytebuffer l =
        header_bytes (default 0 step) ++
        match step with
        | Some s => restart_bytes s logDir
        | None => []
        end
    ∧ _values l = ∅
    ∧ _daemonThread l = None.
Proof.
  intros Hdir Hfile. unfold EventLogger_init, _logFilePath, _logFileName.
  cbn. rewrite Hdir, Hfile. cbn.
  destruct step as [s|]; cbn; eexists; (split; [done|]);
    cbn; by rewrite ?app_nil_r.
Qed.

End Construction.

(** ** The flush daemon and failing writes *)

Section Daemon.

Context `{TfEvents}.
Implicit Types (w : World).

Lemma daemon_wakeup_not_alive w :
  _daemonThread (self w) ≠ Some Alive → daemon_wakeup w = w.
Proof.
  unfold daemon_wakeup.
  by destruct (_daemonThread (self w)) as [[]|].
Qed.

Lemma daemon_wakeups_not_alive n w :
  _daemonThread (self w) ≠ Some Alive → daemon_wakeups n w = w.
Proof.
  intros Hd. induction n as [|n IH]; [done|].
  cbn. by rewrite daemon_wakeup_not_alive.
Qed.

(** When the flush of a wake-up does raise: a disk that refuses the write
    while there is something to write. *)
Lemma daemon_turn_raises w :
  cls (self w) = EventLogger →
  writable (disk w) = false →
  __bytebuffer (self w) ++ summary_bytes (self w) ≠ [] →
  outcome _daemonRun_turn w = Raise IOError.
Proof.
  intros Hcls Hw Hne. unfold _daemonRun_turn. run. rewrite Hcls.
  by rewrite flush_refused.
Qed.

End Daemon.

(** ** Malformed arguments of logging calls *)

Section Malformed.

Context `{TfEvents} `{TfMedia}.
Implicit Types (w : World).

Lemma same_state_refl w : same_state w w.
Proof. done. Qed.

Lemma same_state_touch tid w :
  same_state (with_stack tid (stack_of w tid) w) w.
Proof.
  split; [done|]. split; [done|]. intros t.
  destruct (decide (t = tid)) as [->|Hne];
    [apply stack_of_with_stack|by apply stack_of_with_stack_ne].
Qed.

(** Under the lock nothing raises for a [str] tag and a [TfValue]. *)
Lemma record_returns tag val w : outcome (record tag val) w = Ok tt.
Proof.
  unfold record, record_with, __maybeForceAppend, appendSummary, appendBuffer,
    _spawnDaemonThread, recordValue. run.
  case_bool_decide; cbn; [|by destruct (cls (self w))].
  case_bool_decide; cbn; [by destruct (cls (self w))|].
  destruct (cls (self w)) eqn:Hcls; cbn; rewrite ?Hcls; cbn; [|done].
  by destruct (_flushSecs (self w)), (_daemonThread (self w)); cbn;
    rewrite Hcls.
Qed.


Lemma image_fields_pure image csc h wd w :
  snd (image_fields image csc h wd w) = w.
Proof.
  unfold image_fields, py_int, channel_mode. run.
  destruct image as [data|a|]; [| |done].
  - by destruct csc, wd, h.
  - destruct (shape a) as [|c [|hh [|ww [|]]]]; try done.
    destruct (c =? 1); cbn; [by destruct (png_encode _ _ _ _)|].
    destruct (c =? 2); cbn; [by destruct (png_encode _ _ _ _)|].
    destruct (c =? 3); cbn; [by destruct (png_encode _ _ _ _)|].
    destruct (c =? 4); cbn; [by destruct (png_encode _ _ _ _)|done].
Qed.

Lemma logImage_raise_same_state tid tag image csc h wd dn de pn pc w e :
  outcome (logImage tid tag image csc h wd dn de pn pc) w = Raise e →
  same_state (exec (logImage tid tag image csc h wd dn de pn pc) w) w.
Proof.
  unfold logImage, logImage_with, outcome, exec, mbind, M_bind, bind.
  rewrite getFullTag_run.
  destruct (PyStr.startswith_sep tag); [intros _; apply same_state_refl|].
  pose proof (image_fields_pure image csc h wd
                (with_stack tid (stack_of w tid) w)) as Hpure.
  destruct (image_fields image csc h wd _) as [[f|e'] w1]; cbn in Hpure;
    subst w1; [|intros _; apply same_state_touch].
  intros Hr. exfalso.
  pose proof (record_returns
    (PyStr.join (stack_of w tid ++ [PyStr.re_sub_seps tag]))
    {| vtag := PyStr.join (stack_of w tid ++ [PyStr.re_sub_seps tag]);
       payload := TfImage f.1.1.1 f.1.1.2 f.1.2 f.2;
       metadata := convert_metadata dn de pn pc |}
    (with_stack tid (stack_of w tid) w)) as Hrec.
  unfold outcome, record in Hrec. by rewrite Hrec in Hr.
Qed.

Lemma logScalar_raise_same_state tid tag scalar dn de pn pc w e :
  outcome (logScalar tid tag scalar dn de pn pc) w = Raise e →
  same_state (exec (logScalar tid tag scalar dn de pn pc) w) w.
Proof.
  unfold logScalar, logScalar_with, outcome, exec, mbind, M_bind, bind.
  rewrite getFullTag_run.
  destruct (PyStr.startswith_sep tag); [intros _; apply same_state_refl|].
  destruct scalar as [x|e']; cbn; [|intros _; apply same_state_touch].
  destruct (PyFloat.double_of_Q x) as [y|]; cbn;
    [|intros _; apply same_state_touch].
  intros Hr. exfalso.
  pose proof (record_returns
    (PyStr.join (stack_of w tid ++ [PyStr.re_sub_seps tag]))
    {| vtag := PyStr.join (stack_of w tid ++ [PyStr.re_sub_seps tag]);
       payload := SimpleValue y;
       metadata := convert_metadata dn de pn pc |}
    (with_stack tid (stack_of w tid) w)) as Hrec.
  unfold outcome, record in Hrec. by rewrite Hrec in Hr.
Qed.


(** Every logging call ends in one of three ways: the tag is refused and
    nothing has happened; the payload is refused after the scope stack has
    been looked up; or the call enters the locked block with the resolved
    tag and a value. *)
Lemma log_call_cases ty tid tag c dn de pn pc w :
  let run := log_call ty tid tag c dn de pn pc in
  let w1 := with_stack tid (stack_of w tid) w in
  let full := PyStr.join (stack_of w tid ++ [PyStr.re_sub_seps tag]) in
  (PyStr.startswith_sep tag = true ∧ run w = (Raise AssertionError, w))
  ∨ (PyStr.startswith_sep tag = false ∧ ∃ e, run w = (Raise e, w1))
  ∨ (PyStr.startswith_sep tag = false
     ∧ ∃ val, run w = record_with ty full val w1).
Proof.
  intros run w1 full. subst run.
  destruct (PyStr.startswith_sep tag) eqn:Hsep.
  { left. split; [done|].
    destruct c; unfold log_call, logScalar_with, logImage_with, logAudio_with,
      logText_with, logTensor_with, logHist_with, mbind, M_bind, bind;
      by rewrite getFullTag_run, Hsep. }
  right.
  destruct c as [scalar|image csc h wd|audio sr nc|text|tensor dims|tensor bins];
    unfold log_call, logScalar_with, logImage_with, logAudio_with,
      logText_with, logTensor_with, logHist_with, mbind, M_bind, bind;
    rewrite getFullTag_run, Hsep; fold w1; fold full.
  - destruct scalar as [x|e]; cbn; [|left; eauto].
    destruct (PyFloat.double_of_Q x) as [y|]; cbn; [right|left]; eauto.
  - pose proof (image_fields_pure image csc h wd w1) as Hpure.
    destruct (image_fields image csc h wd w1) as [[f|e] w2]; cbn in Hpure;
      subst w2; [right|left]; eauto.
  - destruct audio as [n smp|]; cbn; [|left; eauto].
    unfold lift_result.
    destruct (wave_encode nc sr smp) as [data|e]; [right|left]; eauto.
  - unfold lift_result.
    destruct (tensor_content text None) as [data|e]; [right|left]; eauto.
  - unfold lift_result.
    destruct (tensor_content tensor dims) as [data|e]; [right|left]; eauto.
  - unfold lift_result.
    destruct (histogram_content tensor bins) as [data|e]; [right|left]; eauto.
Qed.


End Malformed.

(** * The logger at work on the reference framing *)

Import RefFraming.

Lemma same_tag_twice_witness :
  __bytebuffer
    (self (exec appendSummary
             (exec (record "loss" (loss (1 # 3)))
                (exec (record "loss" (loss (1 # 2))) w_fresh)))) =
  [x01; x00; x02; x00; x01; x02; x00; x01].
Proof.
  assert (Hcls : cls (self w_fresh) = EventLogger) by (vm_compute; reflexivity).
  destruct (same_tag_twice_two_summaries "loss" (loss (1 # 2)) (loss (1 # 3))
              w_fresh Hcls) as (_ & _ & _ & Hb & _).
  cbv zeta in Hb. rewrite Hb. vm_compute. reflexivity.
Defined.

Lemma message_and_session_witness :
  file_size log_path (disk w_pending) = 0%nat
  ∧ file_size log_path (disk (exec (logMessage "OOM" ERROR) w_pending)) = 9%nat
  ∧ file_size log_path (disk (exec (logSession STOP None None) w_pending)) = 9%nat.
Proof.
  assert (Hcls : cls (self w_pending) = EventLogger) by (vm_compute; reflexivity).
  assert (Hw : writable (disk w_pending) = true) by (vm_compute; reflexivity).
  assert (Hp : _logFilePath (self w_pending) = log_path)
    by (vm_compute; reflexivity).
  destruct (message_and_session_force_flush "OOM" ERROR STOP None None
              w_pending Hcls Hw) as [(_ & _ & Hm & _) (_ & _ & Hs & _)].
  cbv zeta in Hm, Hs. rewrite Hp in Hm, Hs. rewrite Hm, Hs.
  vm_compute. repeat split.
Defined.

Lemma setStep_witness :
  _currentStep (self w_pending) = 5
  ∧ _currentStep (self (exec (step (Some 3)) w_pending)) = 3
  ∧ file_size log_path (disk (exec (step (Some 3)) w_pending)) = 7%nat
  ∧ __bytebuffer (self (exec (step (Some 3)) w_pending)) = [].
Proof.
  assert (Hcls : cls (self w_pending) = EventLogger) by (vm_compute; reflexivity).
  assert (Hw : writable (disk w_pending) = true) by (vm_compute; reflexivity).
  assert (Hp : _logFilePath (self w_pending) = log_path)
    by (vm_compute; reflexivity).
  destruct (setStep_flushes_then_sets 3 w_pending Hcls) as [Hok _].
  destruct (Hok Hw) as (_ & _ & Hsize & Hbuf & _ & Hstep).
  rewrite Hp in Hsize. rewrite Hsize, Hbuf, Hstep.
  vm_compute. repeat split.
Defined.

Lemma advance_witness :
  _currentStep (self (exec (step None) w_pending)) = 6
  ∧ __bytebuffer (self (exec (step None) w_pending)) =
      [x01; x05; x03; x05; x02; x05; x01]
  ∧ _currentStep (self (exec (step None) w_fresh)) = 1
  ∧ __bytebuffer (self (exec (step None) w_fresh)) = [x01; x00].
Proof.
  assert (Hp : cls (self w_pending) = EventLogger) by (vm_compute; reflexivity).
  assert (Hf : cls (self w_fresh) = EventLogger) by (vm_compute; reflexivity).
  destruct (advance_drains_then_increments w_pending Hp)
    as (_ & Hb1 & _ & _ & Hs1 & _).
  destruct (advance_drains_then_increments w_fresh Hf)
    as (_ & Hb2 & _ & _ & Hs2 & _).
  cbv zeta in *. rewrite Hb1, Hs1, Hb2, Hs2. vm_compute. repeat split.
Defined.

Lemma getFullTag_resolution_witness :
  outcome (py_with (tagscope Py2 0 ["a"; "b"]) (getFullTag 0 "x")) w_fresh =
    Ok "a/b/x"
  ∧ outcome (py_with (tagscope Py2 0 ["a"; "b"]) (getFullTag 0 "x");;
             getFullTag 0 "x") w_fresh = Ok "x"
  ∧ outcome (getFullTag 0 "p//q///r") w_fresh = Ok "p/q/r"
  ∧ outcome (getFullTag 0 "/p") w_fresh = Raise AssertionError.
Proof.
  assert (Hok : names_ok Py2 ["a"; "b"] = true) by (vm_compute; reflexivity).
  assert (Hst : stack_of w_fresh 0 = []) by (vm_compute; reflexivity).
  destruct (getFullTag_resolution Py2 0 "a" "b" "p//q///r" w_fresh Hok)
    as (Hrun & _ & _ & _ & _ & _ & Hab).
  destruct (getFullTag_resolution Py2 0 "a" "b" "/p" w_fresh Hok)
    as (Hrej & _).
  destruct (Hab Hst) as [Hin Hout].
  unfold outcome at 3 4. rewrite Hin, Hout, Hrun, Hrej.
  vm_compute. repeat split.
Defined.

Lemma scope_stack_shared_witness :
  outcome (getFullTag 7 "x")
    (with_self NullEventLogger_init
       (exec (before_yield (tagscope Py2 7 ["a"; "b"]))
          (with_self (fresh None None) w_fresh))) = Ok "a/b/x"
  ∧ outcome (getFullTag 7 "x") (with_self NullEventLogger_init w_fresh) = Ok "x".
Proof.
  assert (Hok : names_ok Py2 ["a"; "b"] = true) by (vm_compute; reflexivity).
  assert (Hne : ["a"; "b"] ≠ ([] : list string)) by discriminate.
  assert (Htag : PyStr.startswith_sep "x" = false) by reflexivity.
  destruct (scope_stack_shared_by_loggers Py2 7 ["a"; "b"] "x"
              (fresh None None) NullEventLogger_init w_fresh Hok Hne Htag)
    as (Hout & Hin & _).
  rewrite Hin, Hout. vm_compute. repeat split.
Defined.

Lemma init_witness :
  ∃ l, EventLogger_init "logs" (Some 0) None "0" "u" disk0 = Ok l
       ∧ __bytebuffer l = [x01; x00; x03; x00].
Proof.
  assert (Hd : isdir disk0 "logs" = true) by (vm_compute; reflexivity).
  assert (Hf : isfile disk0 (PyStr.path_join "logs"
                 ("tfevents." +:+ "0" +:+ "." +:+ "u" +:+ ".out")) = false)
    by (vm_compute; reflexivity).
  destruct (init_emits_header_then_restart "logs" (Some 0) None "0" "u"
              disk0 Hd Hf) as (l & Hinit & _ & Hbuf & _).
  exists l. split; [exact Hinit|]. rewrite Hbuf. vm_compute. reflexivity.
Defined.


(** A scope whose body returns leaves the stack of the thread as it found
    it, for any body that itself leaves the stack as it found it. *)
Lemma tagscope_returning_body_restores {A} ver tid names (body : M A) w a w2 :
  names_ok ver names = true →
  body (entered tid names w) = (Ok a, w2) →
  stack_of w2 tid = stack_of w tid ++ names →
  stack_of (exec (py_with (tagscope ver tid names) body) w) tid = stack_of w tid.
Proof.
  intros Hok Hbody Hst. unfold exec.
  rewrite (py_with_tagscope_returns ver tid names body w a w2) by done.
  by apply stack_of_left_scope.
Qed.

(** A scope whose body raises leaves the stack as the body left it, the
    names of the scope still on it. *)
Lemma tagscope_raising_body_leaks {A} ver tid names (body : M A) w e w2 :
  names_ok ver names = true →
  body (entered tid names w) = (Raise e, w2) →
  stack_of w2 tid = stack_of w tid ++ names →
  stack_of (exec (py_with (tagscope ver tid names) body) w) tid =
  stack_of w tid ++ names.
Proof.
  intros Hok Hbody Hst. unfold exec.
  by rewrite (py_with_tagscope_raises ver tid names body w e w2).
Qed.

(** C7: the scope [a] entered on an empty stack around a body that raises.
    The exception reaches the caller, the name [a] is still on the stack of
    the thread, and a tag resolved afterwards carries it as a prefix.  The
    pop that the scope owes on exit happens only when the body returns. *)
Theorem tagscope_keeps_names_when_body_raises :
  let m := py_with (tagscope Py2 0 ["a"]) (raise ValueError : M unit) in
  stack_of w_fresh 0 = []
  ∧ outcome m w_fresh = Raise ValueError
  ∧ stack_of (exec m w_fresh) 0 = ["a"]
  ∧ outcome (getFullTag 0 "x") (exec m w_fresh) = Ok "a/x"
  ∧ outcome (py_with (tagscope Py2 0 ["a"]) (ret tt);; getFullTag 0 "x")
      w_fresh = Ok "x".
Proof. vm_compute. repeat split. Qed.

Lemma init_step_zero_counterexample :
  (∃ l, EventLogger_init "logs" (Some 0) None "0" "u" disk0 = Ok l
        ∧ __bytebuffer l = header_bytes 0 ++ restart_bytes 0 "logs"
        ∧ __bytebuffer l ≠ header_bytes 0)
  ∧ ¬ restart_marker_iff_nonzero_step.
Proof.
  assert (Hinit : ∃ l, EventLogger_init "logs" (Some 0) None "0" "u" disk0 = Ok l
                       ∧ __bytebuffer l = [x01; x00; x03; x00]).
  { vm_compute. eexists. split; reflexivity. }
  destruct Hinit as (l & Hinit & Hbuf). split.
  - exists l. split; [exact Hinit|]. rewrite Hbuf. vm_compute.
    split; [reflexivity|discriminate].
  - intros Hclaim. specialize (Hclaim _ _ _ _ _ _ _ Hinit).
    rewrite Hbuf in Hclaim. vm_compute in Hclaim. discriminate.
Qed.

Lemma daemon_flush_error_counterexample :
  (_daemonThread (self w_refusing) = Some Alive
   ∧ outcome _daemonRun_turn w_refusing = Raise IOError
   ∧ _daemonThread (self (daemon_wakeup w_refusing)) = Some Dead
   ∧ file_size log_path
       (disk (daemon_wakeups 3 (repaired (daemon_wakeup w_refusing)))) = 0%nat
   ∧ __bytebuffer
       (self (daemon_wakeups 3 (repaired (daemon_wakeup w_refusing)))) =
       [x01; x00; x09])
  ∧ ¬ scheduler_survives_flush_error.
Proof.
  split; [vm_compute; repeat split|].
  intros Hclaim.
  assert (Ha : _daemonThread (self w_refusing) = Some Alive)
    by (vm_compute; reflexivity).
  assert (Hr : outcome _daemonRun_turn w_refusing = Raise IOError)
    by (vm_compute; reflexivity).
  specialize (Hclaim w_refusing IOError Ha Hr).
  vm_compute in Hclaim. discriminate.
Qed.


(** * Traces: what no sequence of calls does *)

Section TraceFacts.

Context `{TfEvents}.
Implicit Types (w : World) (l : Logger) (o : Op) (os : list Op).

Lemma set_tls_id w : set_tls (fun m => m) w = w.
Proof. by destruct w. Qed.

Lemma scope_pop_tls tid w : ∃ f, snd (scope_pop tid w) = set_tls f w.
Proof.
  unfold scope_pop. run. rewrite tagScopePath_run.
  destruct (stack_of w tid) as [|x st]; cbn.
  - by exists <[tid := []]>.
  - by exists (fun m => <[tid := removelast (x :: st)]> (<[tid := x :: st]> m)).
Qed.

Lemma scope_pops_tls {A} tid (xs : list A) w :
  ∃ f, snd (for_each xs (fun _ => scope_pop tid) w) = set_tls f w.
Proof.
  revert w. induction xs as [|x xs IH]; intros w.
  { exists (fun m => m). by rewrite set_tls_id. }
  cbn [for_each]. unfold mbind, M_bind, bind.
  destruct (scope_pop_tls tid w) as [f Hf].
  destruct (scope_pop tid w) as [[[]|e] w1]; cbn in Hf; subst w1.
  - destruct (IH (set_tls f w)) as [g Hg]. rewrite Hg.
    by exists (fun m => g (f m)).
  - by exists f.
Qed.

Lemma scope_enter_tls ver tid names w :
  ∃ f, exec (before_yield (tagscope ver tid names)) w = set_tls f w.
Proof.
  unfold exec. rewrite tagscope_enter_run.
  destruct (names_ok ver names); cbn;
    [|exists (fun m => m); by rewrite set_tls_id].
  destruct names as [|n names]; [exists (fun m => m); by rewrite set_tls_id|].
  by exists <[tid := stack_of w tid ++ n :: names]>.
Qed.

Lemma scope_exit_tls ver tid names w :
  ∃ f, exec (after_yield (tagscope ver tid names)) w = set_tls f w.
Proof. apply scope_pops_tls. Qed.

Lemma quiet_cls w w' : quiet w w' → cls (self w') = cls (self w).
Proof.
  destruct 1; cbn; rewrite ?cls_drained, ?cls_appended; done.
Qed.

Lemma rtc_quiet_cls w w' : rtc quiet w w' → cls (self w') = cls (self w).
Proof.
  induction 1 as [|w w1 w2 Hq _ IH]; [done|].
  by rewrite IH, (quiet_cls _ _ Hq).
Qed.

(** [flush], as moves. *)
Lemma flush_quiet w :
  cls (self w) = EventLogger → rtc quiet w (exec flush w).
Proof.
  intros Hcls. unfold exec. rewrite flush_run by done. cbn zeta.
  set (w1 := with_self (drained (self w)) w).
  assert (Hd : quiet w w1) by by apply quiet_drain.
  destruct (__bytebuffer (drained (self w))) as [|b bs] eqn:Hb;
    [by apply rtc_once|].
  destruct (writable (disk w)) eqn:Hw; cbn [snd]; [|by apply rtc_once].
  eapply rtc_l; [exact Hd|]. apply rtc_once.
  pose proof (quiet_write w1) as Hq. cbn in Hq. rewrite Hb in Hq.
  apply Hq; [by rewrite cls_drained|done].
Qed.

Lemma appendSummary_quiet w :
  cls (self w) = EventLogger → rtc quiet w (exec appendSummary w).
Proof.
  intros Hcls. unfold exec. rewrite appendSummary_run by done.
  by apply rtc_once, quiet_drain.
Qed.

Lemma record_quiet tag val w :
  cls (self w) = EventLogger → rtc quiet w (exec (record tag val) w).
Proof.
  intros Hcls. unfold exec. rewrite record_run by done. cbn [snd].
  unfold forced. case_bool_decide.
  - eapply rtc_l; [by apply quiet_drain|]. apply rtc_once.
    apply (quiet_record tag val (with_self (drained (self w)) w)).
    cbn. by rewrite cls_drained.
  - by apply rtc_once, quiet_record.
Qed.

Lemma drain_append_flush_quiet (mk : Z → TfEvent) w :
  cls (self w) = EventLogger →
  rtc quiet w
    (exec (appendSummary;;
           l ← get_self;
           appendBuffer (asRecordByteArray (mk (_currentStep l)));;
           flush) w).
Proof.
  intros Hcls. run. rewrite appendSummary_run by done. cbn.
  rewrite appendBuffer_run by (cbn; by rewrite cls_drained). cbn.
  set (w1 := with_self (drained (self w)) w).
  set (w2 := with_self
               (appended
                  (asRecordByteArray (mk (_currentStep (drained (self w)))))
                  (drained (self w))) w).
  eapply rtc_l; [by apply (quiet_drain w)|].
  eapply rtc_l.
  { apply (quiet_append
             (asRecordByteArray (mk (_currentStep (drained (self w))))) w1).
    cbn. by rewrite cls_drained. }
  apply (flush_quiet w2). cbn. by rewrite cls_appended, cls_drained.
Qed.

Lemma logScalar_quiet tid tag scalar dn de pn pc w :
  cls (self w) = EventLogger →
  rtc quiet w (exec (logScalar tid tag scalar dn de pn pc) w).
Proof.
  intros Hcls. unfold logScalar, logScalar_with, exec, mbind, M_bind, bind.
  rewrite getFullTag_run.
  destruct (PyStr.startswith_sep tag); [apply rtc_refl|].
  eapply rtc_l; [apply (quiet_tls <[tid := stack_of w tid]> w)|].
  fold (with_stack tid (stack_of w tid) w).
  destruct scalar as [x|e]; cbn; [|apply rtc_refl].
  destruct (PyFloat.double_of_Q x) as [y|]; cbn; [|apply rtc_refl].
  by apply record_quiet.
Qed.

Lemma logImage_quiet tid tag image csc h wd dn de pn pc w :
  cls (self w) = EventLogger →
  rtc quiet w (exec (logImage tid tag image csc h wd dn de pn pc) w).
Proof.
  intros Hcls. unfold logImage, logImage_with, exec, mbind, M_bind, bind.
  rewrite getFullTag_run.
  destruct (PyStr.startswith_sep tag); [apply rtc_refl|].
  eapply rtc_l; [apply (quiet_tls <[tid := stack_of w tid]> w)|].
  fold (with_stack tid (stack_of w tid) w).
  pose proof (image_fields_pure image csc h wd
                (with_stack tid (stack_of w tid) w)) as Hpure.
  destruct (image_fields image csc h wd _) as [[f|e] w1]; cbn in Hpure;
    subst w1; [|apply rtc_refl].
  by apply record_quiet.
Qed.

Lemma del_quiet w : cls (self w) = EventLogger → rtc quiet w (exec __del__ w).
Proof.
  intros Hcls. pose proof (flush_quiet w Hcls) as Hf.
  unfold __del__, exec in *. run.
  destruct (flush w) as [[[]|e] w1]; cbn in *; [|done].
  eapply rtc_r; [exact Hf|]. apply quiet_exiting.
Qed.

Lemma spawned_thread l :
  _daemonThread l ≠ None → _daemonThread (spawned l) = _daemonThread l.
Proof.
  intros Hne. unfold spawned. destruct (_flushSecs l); [|done].
  by destruct (_daemonThread l) eqn:E.
Qed.

Lemma flush_keeps_thread w :
  cls (self w) = EventLogger →
  _daemonThread (self w) ≠ None →
  _daemonThread (self (exec flush w)) = _daemonThread (self w).
Proof.
  intros Hcls Hth. unfold exec. rewrite flush_run by done. cbn zeta.
  assert (Hd : _daemonThread (drained (self w)) = _daemonThread (self w)).
  { unfold drained, appended. case_bool_decide; [done|]. cbn.
    by rewrite spawned_thread. }
  destruct (__bytebuffer (drained (self w))); [done|].
  by destruct (writable (disk w)).
Qed.

Lemma wakeup_quiet w :
  cls (self w) = EventLogger → rtc quiet w (daemon_wakeup w).
Proof.
  intros Hcls. unfold daemon_wakeup.
  destruct (_daemonThread (self w)) as [[]|] eqn:Hth; try apply rtc_refl.
  pose proof (flush_quiet w Hcls) as Hf.
  pose proof (flush_keeps_thread w Hcls) as Hkeep.
  rewrite Hth in Hkeep. specialize (Hkeep ltac:(done)).
  unfold _daemonRun_turn, exec in *. run. rewrite Hcls.
  destruct (flush w) as [[[]|e] w1]; cbn in *.
  - destruct (_isExiting (self w1)); cbn; [|done].
    eapply rtc_r; [exact Hf|]. by apply quiet_thread_end.
  - eapply rtc_r; [exact Hf|]. by apply quiet_thread_end.
Qed.

Lemma run_op_quiet o w :
  cls (self w) = EventLogger →
  is_advance o = false → is_setStep o = false →
  rtc quiet w (run_op o w).
Proof.
  intros Hcls Ha Hs.
  destruct o as [[k|]| | | | | | | | | |]; try done; cbn [run_op].
  - by apply flush_quiet.
  - by apply del_quiet.
  - by apply logScalar_quiet.
  - by apply logImage_quiet.
  - by apply (drain_append_flush_quiet (fun s => EvLogMessage s msg level)).
  - by apply (drain_append_flush_quiet
                (fun s => EvSessionLog s status msg path)).
  - destruct (scope_enter_tls ver tid names w) as [f ->].
    apply rtc_once, quiet_tls.
  - destruct (scope_exit_tls ver tid names w) as [f ->].
    apply rtc_once, quiet_tls.
  - by apply wakeup_quiet.
  - apply rtc_once, quiet_env.
Qed.

Lemma run_op_advance w :
  cls (self w) = EventLogger →
  run_op (OStep None) w =
  with_self (with_step (_currentStep (self w) + 1) (drained (self w))) w.
Proof. intros Hcls. cbn [run_op]. unfold exec. by rewrite step_advance_run. Qed.

Lemma run_op_setStep k w :
  cls (self w) = EventLogger →
  run_op (OStep (Some k)) w = exec flush w
  ∨ run_op (OStep (Some k)) w =
      with_self (with_step k (self (exec flush w))) (exec flush w).
Proof.
  intros Hcls. cbn [run_op]. unfold step, exec. run. rewrite Hcls.
  destruct (flush w) as [[[]|e] w1]; cbn; auto.
Qed.

Lemma rtc_quiet_move w w' : rtc quiet w w' → rtc move w w'.
Proof.
  induction 1 as [|a b c Hq _ IH]; [apply rtc_refl|].
  eapply rtc_l; [by apply move_quiet|done].
Qed.

Lemma run_op_moves o w :
  cls (self w) = EventLogger → rtc move w (run_op o w).
Proof.
  intros Hcls.
  destruct (is_advance o) eqn:Ha; [|destruct (is_setStep o) eqn:Hs].
  - destruct o as [[k|]| | | | | | | | | |]; try done.
    rewrite run_op_advance by done.
    eapply rtc_l; [apply move_quiet, quiet_drain; done|].
    apply rtc_once.
    apply (move_step (_currentStep (self w) + 1)
             (with_self (drained (self w)) w)).
  - destruct o as [[k|]| | | | | | | | | |]; try done.
    destruct (run_op_setStep k w Hcls) as [-> | ->].
    + by apply rtc_quiet_move, flush_quiet.
    + eapply rtc_r; [by apply rtc_quiet_move, flush_quiet|].
      apply move_step.
  - by apply rtc_quiet_move, run_op_quiet.
Qed.

Lemma move_cls w w' : move w w' → cls (self w') = cls (self w).
Proof. destruct 1 as [w w' Hq|k w]; [by apply quiet_cls|done]. Qed.

Lemma rtc_move_cls w w' : rtc move w w' → cls (self w') = cls (self w).
Proof.
  induction 1 as [|a b c Hm _ IH]; [done|].
  by rewrite IH, (move_cls _ _ Hm).
Qed.

(** A relation between worlds that holds along every move of a logger
    holds along every trace. *)
Lemma run_ops_related (Rel : World → World → Prop) :
  (∀ w, Rel w w) →
  (∀ a b c, Rel a b → Rel b c → Rel a c) →
  (∀ w w', cls (self w) = EventLogger → move w w' → Rel w w') →
  ∀ os w, cls (self w) = EventLogger → Rel w (run_ops os w).
Proof.
  intros Hrefl Htrans Hmove.
  assert (Hrtc : ∀ w w', rtc move w w' →
            cls (self w) = EventLogger → Rel w w').
  { induction 1 as [|a b c Hm _ IH]; intros Hcls; [done|].
    eapply Htrans; [by apply Hmove|].
    apply IH. by rewrite (move_cls _ _ Hm). }
  induction os as [|o os IH]; intros w Hcls; [done|].
  cbn [run_ops]. pose proof (run_op_moves o w Hcls) as Hm.
  eapply Htrans; [by apply Hrtc|].
  apply IH. by rewrite (rtc_move_cls _ _ Hm).
Qed.

Lemma logFilePath_recorded tag val l :
  _logFilePath (recorded tag val l) = _logFilePath l.
Proof. done. Qed.

Lemma flushSecs_spawned l : _flushSecs (spawned l) = _flushSecs l.
Proof.
  unfold spawned.
  by destruct (_flushSecs l) eqn:E, (_daemonThread l); cbn; rewrite ?E.
Qed.

Lemma flushSecs_appended b l : _flushSecs (appended b l) = _flushSecs l.
Proof. unfold appended. by rewrite flushSecs_spawned. Qed.

Lemma flushSecs_drained l : _flushSecs (drained l) = _flushSecs l.
Proof.
  unfold drained. case_bool_decide; [done|]. cbn.
  by rewrite flushSecs_appended.
Qed.

Lemma move_frame w w' :
  move w w' →
  _logFilePath (self w') = _logFilePath (self w)
  ∧ _flushSecs (self w') = _flushSecs (self w)
  ∧ dirs (disk w') = dirs (disk w).
Proof.
  destruct 1 as [w w' Hq|k w]; [|done].
  destruct Hq; cbn [self disk with_self set_self set_tls set_writable set_disk];
    rewrite ?logFilePath_drained, ?logFilePath_appended,
      ?flushSecs_drained, ?flushSecs_appended; try done.
  split; [done|]. split; [done|].
  unfold written. by destruct (__bytebuffer (self w)).
Qed.



Lemma metadata_appended b l : _metadata (appended b l) = _metadata l.
Proof. unfold appended. by rewrite metadata_spawned. Qed.

Lemma move_seen w w' :
  move w w' →
  _metadata (self w) ⊆ _metadata (self w')
  ∧ ((∀ t, is_Some (_values (self w) !! t) → t ∈ _metadata (self w)) →
     ∀ t, is_Some (_values (self w') !! t) → t ∈ _metadata (self w')).
Proof.
  destruct 1 as [w w' Hq|k w]; [|done].
  destruct Hq; cbn [self with_self set_self set_tls set_writable set_disk];
    rewrite ?metadata_drained, ?metadata_appended, ?values_drained,
      ?values_appended; try done.
  - split; [done|]. intros _ t [v Hv]. by rewrite lookup_empty in Hv.
  - cbn. split; [set_solver|]. intros Hin t.
    destruct (decide (t = tag)) as [->|Hne]; [set_solver|].
    rewrite lookup_insert_ne by done. intros Ht.
    apply elem_of_union. right. by apply Hin.
Qed.

(** X2: every pending value is under a tag of the seen set, and the seen
    set never loses a tag: not on a step, not on a flush, not when a write
    fails. *)
Theorem trace_seen_tags_grow os w :
  cls (self w) = EventLogger →
  (∀ t, is_Some (_values (self w) !! t) → t ∈ _metadata (self w)) →
  let w' := run_ops os w in
  _metadata (self w) ⊆ _metadata (self w')
  ∧ ∀ t, is_Some (_values (self w') !! t) → t ∈ _metadata (self w').
Proof.
  intros Hcls Hin w'. subst w'.
  cut (_metadata (self w) ⊆ _metadata (self (run_ops os w))
       ∧ ((∀ t, is_Some (_values (self w) !! t) → t ∈ _metadata (self w)) →
          ∀ t, is_Some (_values (self (run_ops os w)) !! t) →
               t ∈ _metadata (self (run_ops os w)))).
  { intros [Hsub Hpend]. split; [done|by apply Hpend]. }
  clear Hin. revert os w Hcls.
  apply (run_ops_related (fun w w' =>
    _metadata (self w) ⊆ _metadata (self w')
    ∧ ((∀ t, is_Some (_values (self w) !! t) → t ∈ _metadata (self w)) →
       ∀ t, is_Some (_values (self w') !! t) → t ∈ _metadata (self w')))).
  - done.
  - intros a b c [Hs1 Hp1] [Hs2 Hp2]. split; [by etrans|auto].
  - intros w w' _ Hm. by apply move_seen.
Qed.

(** X3: metadata goes out once per tag.  A tag that has been seen stays
    seen through any sequence of calls, so whatever value is recorded for
    it later is stored with the tag and the payload it came with and with
    no metadata. *)
Theorem seen_tag_loses_metadata os tag val w :
  cls (self w) = EventLogger →
  tag ∈ _metadata (self w) →
  _values (self (exec (record tag val) (run_ops os w))) !! tag =
  Some {| vtag := vtag val; payload := payload val; metadata := None |}.
Proof.
  intros Hcls Hseen.
  assert (Hcls' : cls (self (run_ops os w)) = EventLogger).
  { rewrite <- Hcls. clear Hseen. revert os w Hcls.
    apply (run_ops_related (fun w w' => cls (self w') = cls (self w)));
      [done|congruence|]. intros w w' _ Hm. by apply move_cls. }
  assert (Hsub : _metadata (self w) ⊆ _metadata (self (run_ops os w))).
  { clear Hseen Hcls'. revert os w Hcls.
    apply (run_ops_related (fun w w' =>
      _metadata (self w) ⊆ _metadata (self w'))); [done|by etrans|].
    intros w w' _ Hm. by apply move_seen. }
  unfold exec. rewrite record_run by done. cbn.
  rewrite lookup_insert_eq, bool_decide_eq_true_2; [done|].
  unfold forced. case_bool_decide; rewrite ?metadata_drained; by apply Hsub.
Qed.

Lemma spawned_no_interval l :
  _flushSecs l = None → _daemonThread (spawned l) = _daemonThread l.
Proof. intros Hf. unfold spawned. by rewrite Hf. Qed.

Lemma move_thread w w' :
  move w w' →
  (_flushSecs (self w) = None → _daemonThread (self w) = None →
   _daemonThread (self w') = None)
  ∧ (_daemonThread (self w) = Some Dead → _daemonThread (self w') = Some Dead).
Proof.
  destruct 1 as [w w' Hq|k w]; [|done].
  destruct Hq; cbn [self with_self set_self set_tls set_writable set_disk];
    try done.
  - unfold drained, appended. case_bool_decide; [done|]. cbn. split.
    + intros Hf Hn. by rewrite spawned_no_interval.
    + intros Hd. rewrite spawned_thread; cbn; by rewrite Hd.
  - unfold appended. split.
    + intros Hf Hn. by rewrite spawned_no_interval.
    + intros Hd. rewrite spawned_thread; cbn; by rewrite Hd.
  - split; congruence.
Qed.

(** X4: a logger built without a flush interval never has a daemon thread,
    whatever is called on it; and a daemon thread that has died is never
    replaced, since the attribute that holds it is never cleared. *)
Theorem trace_daemon_never_appears os w :
  cls (self w) = EventLogger →
  let w' := run_ops os w in
  (_flushSecs (self w) = None → _daemonThread (self w) = None →
   _daemonThread (self w') = None)
  ∧ (_daemonThread (self w) = Some Dead → _daemonThread (self w') = Some Dead).
Proof.
  intros Hcls w'. subst w'.
  cut (_flushSecs (self (run_ops os w)) = _flushSecs (self w)
       ∧ (_flushSecs (self w) = None → _daemonThread (self w) = None →
          _daemonThread (self (run_ops os w)) = None)
       ∧ (_daemonThread (self w) = Some Dead →
          _daemonThread (self (run_ops os w)) = Some Dead)).
  { intros (_ & Hn & Hd). done. }
  revert os w Hcls.
  apply (run_ops_related (fun w w' =>
    _flushSecs (self w') = _flushSecs (self w)
    ∧ (_flushSecs (self w) = None → _daemonThread (self w) = None →
       _daemonThread (self w') = None)
    ∧ (_daemonThread (self w) = Some Dead →
       _daemonThread (self w') = Some Dead))).
  - done.
  - intros a b c (Hf1 & Hn1 & Hd1) (Hf2 & Hn2 & Hd2).
    split; [congruence|]. split; [|auto].
    intros Hf Hn. apply Hn2; [congruence|auto].
  - intros w w' _ Hm. destruct (move_frame _ _ Hm) as (_ & Hf & _).
    destruct (move_thread _ _ Hm) as [Hn Hd]. done.
Qed.

Lemma quiet_step w w' :
  quiet w w' → _currentStep (self w') = _currentStep (self w).
Proof.
  destruct 1; cbn [self with_self set_self set_tls set_writable set_disk];
    rewrite ?step_drained, ?step_appended; done.
Qed.

Lemma rtc_quiet_step w w' :
  rtc quiet w w' → _currentStep (self w') = _currentStep (self w).
Proof.
  induction 1 as [|a b c Hq _ IH]; [done|].
  by rewrite IH, (quiet_step _ _ Hq).
Qed.

(** X5: the step counter moves only when told to.  Along a trace that never
    sets the step, the counter is its first value plus the number of
    [step()] calls: no logging call, flush, wake-up of the daemon or failed
    write changes it. *)
Theorem trace_step_counts_advances os w :
  cls (self w) = EventLogger →
  forallb (fun o => negb (is_setStep o)) os = true →
  _currentStep (self (run_ops os w)) =
  _currentStep (self w) + Z.of_nat (List.length (List.filter is_advance os)).
Proof.
  revert w. induction os as [|o os IH]; intros w Hcls Hno; [cbn; lia|].
  cbn [forallb] in Hno. apply andb_true_iff in Hno as [Ho Hno].
  apply negb_true_iff in Ho.
  assert (Hcls1 : cls (self (run_op o w)) = EventLogger)
    by by rewrite (rtc_move_cls _ _ (run_op_moves o w Hcls)).
  cbn [run_ops List.filter]. rewrite IH by done.
  destruct (is_advance o) eqn:Ha.
  - destruct o as [[k|]| | | | | | | | | |]; try done.
    rewrite run_op_advance by done.
    cbn [self with_self set_self with_step _currentStep List.length]. lia.
  - by rewrite (rtc_quiet_step _ _ (run_op_quiet o w Hcls Ha Ho)).
Qed.

(** *** The null logger *)

Lemma null_flush w : cls (self w) = NullEventLogger → flush w = (Ok tt, w).
Proof. intros Hcls. unfold flush. run. by rewrite Hcls. Qed.

Lemma null_appendBuffer b w :
  cls (self w) = NullEventLogger → appendBuffer b w = (Ok tt, w).
Proof. intros Hcls. unfold appendBuffer. run. by rewrite Hcls. Qed.

Lemma idle_appendSummary w : _values (self w) = ∅ → appendSummary w = (Ok tt, w).
Proof.
  intros Hv. unfold appendSummary. run. by rewrite bool_decide_eq_true_2.
Qed.

Lemma null_record ty tag val w :
  cls (self w) = NullEventLogger → _values (self w) = ∅ →
  record_with ty tag val w = (Ok tt, w).
Proof.
  intros Hcls Hv. unfold record_with, __maybeForceAppend, recordValue. run.
  rewrite Hv, lookup_empty, bool_decide_eq_false_2 by by intros [? ?].
  cbn. by rewrite Hcls.
Qed.

Lemma null_run_op o w :
  cls (self w) = NullEventLogger → _values (self w) = ∅ →
  let w' := run_op o w in
  cls (self w') = NullEventLogger
  ∧ _values (self w') = ∅
  ∧ files (disk w') = files (disk w)
  ∧ dirs (disk w') = dirs (disk w)
  ∧ __bytebuffer (self w') = __bytebuffer (self w)
  ∧ _metadata (self w') = _metadata (self w)
  ∧ _currentStep (self w') = _currentStep (self w)
  ∧ _daemonThread (self w') = _daemonThread (self w).
Proof.
  intros Hcls Hv w'. subst w'.
  destruct o; cbn [run_op]; unfold exec.
  - unfold step. run. by rewrite Hcls.
  - by rewrite null_flush.
  - unfold __del__. run. by rewrite null_flush.
  - unfold logScalar, logScalar_with, mbind, M_bind, bind.
    rewrite getFullTag_run.
    destruct (PyStr.startswith_sep tag); [done|].
    destruct scalar as [x|e]; cbn; [|done].
    destruct (PyFloat.double_of_Q x) as [y|]; cbn; [|done].
    by rewrite null_record.
  - unfold logImage, logImage_with, mbind, M_bind, bind.
    rewrite getFullTag_run.
    destruct (PyStr.startswith_sep tag); [done|].
    pose proof (image_fields_pure image csc h wd
                  (with_stack tid (stack_of w tid) w)) as Hpure.
    destruct (image_fields image csc h wd _) as [[f|e] w1]; cbn in Hpure;
      subst w1; [|done].
    by rewrite null_record.
  - unfold logMessage. run. rewrite idle_appendSummary by done. cbn.
    rewrite null_appendBuffer by done. cbn. by rewrite null_flush.
  - unfold logSession. run. rewrite idle_appendSummary by done. cbn.
    rewrite null_appendBuffer by done. cbn. by rewrite null_flush.
  - destruct (scope_enter_tls ver tid names w) as [f Hf].
    unfold exec in Hf. by rewrite Hf.
  - destruct (scope_exit_tls ver tid names w) as [f Hf].
    unfold exec in Hf. by rewrite Hf.
  - unfold daemon_wakeup, _daemonRun_turn. run. rewrite Hcls.
    by destruct (_daemonThread (self w)) as [[]|] eqn:E; cbn; rewrite ?E.
  - done.
Qed.

(** X6: the null logger is inert.  No sequence of calls on it, of wake-ups
    or of scope entries writes a file, makes a directory, buffers a byte,
    records a value, marks a tag as seen, moves the step or starts a daemon
    thread. *)
Theorem null_logger_is_inert os w :
  cls (self w) = NullEventLogger →
  _values (self w) = ∅ →
  let w' := run_ops os w in
  files (disk w') = files (disk w)
  ∧ dirs (disk w') = dirs (disk w)
  ∧ __bytebuffer (self w') = __bytebuffer (self w)
  ∧ _values (self w') = ∅
  ∧ _metadata (self w') = _metadata (self w)
  ∧ _currentStep (self w') = _currentStep (self w)
  ∧ _daemonThread (self w') = _daemonThread (self w).
Proof.
  intros Hcls Hv w'. subst w'. revert w Hcls Hv.
  induction os as [|o os IH]; intros w Hcls Hv; [done|].
  cbn [run_ops].
  destruct (null_run_op o w Hcls Hv)
    as (Hc & Hv1 & Hf & Hd & Hb & Hm & Hs & Ht).
  destruct (IH _ Hc Hv1) as (Hf' & Hd' & Hb' & Hv' & Hm' & Hs' & Ht').
  repeat split; congruence.
Qed.

(** *** Flushing *)

Lemma flush_idle w :
  cls (self w) = EventLogger →
  __bytebuffer (self w) = [] → _values (self w) = ∅ →
  flush w = (Ok tt, w).
Proof.
  intros Hc Hb Hv. rewrite flush_run by done. cbn zeta.
  rewrite (drained_idle _ Hv), Hb. by rewrite with_self_id.
Qed.

Lemma flush_settles w :
  cls (self w) = EventLogger →
  outcome flush w = Ok tt →
  flush (exec flush w) = (Ok tt, exec flush w)
  ∧ __bytebuffer (self (exec flush w)) = []
  ∧ _values (self (exec flush w)) = ∅.
Proof.
  intros Hcls.
  unfold outcome, exec. rewrite flush_run by done. cbn zeta.
  destruct (__bytebuffer (drained (self w))) as [|b bs] eqn:Hb.
  - intros _. cbn [snd fst].
    assert (flush (with_self (drained (self w)) w) =
            (Ok tt, with_self (drained (self w)) w)) as Hf.
    { apply flush_idle; cbn; [by rewrite cls_drained|done|apply values_drained]. }
    split; [done|]. split; [done|]. apply values_drained.
  - destruct (writable (disk w)); [|done]. intros _. cbn [snd fst].
    split; [|split; [done|apply values_drained]].
    apply flush_idle; cbn; [by rewrite cls_drained|done|apply values_drained].
Qed.

(** X7: a flush with nothing to write opens no file, so it succeeds even on
    a disk that refuses writes; and a second flush right after a successful
    one changes nothing. *)
Theorem flush_twice_is_flush_once w :
  cls (self w) = EventLogger →
  (__bytebuffer (self w) = [] → _values (self w) = ∅ → flush w = (Ok tt, w))
  ∧ (outcome flush w = Ok tt →
     flush (exec flush w) = (Ok tt, exec flush w)
     ∧ __bytebuffer (self (exec flush w)) = []
     ∧ _values (self (exec flush w)) = ∅).
Proof.
  intros Hcls. split; [by apply flush_idle|by apply flush_settles].
Qed.

(** *** The daemon *)

(** X8: a wake-up of a live daemon whose flush succeeds does what [flush]
    does.  It leaves the daemon alive while the logger is not exiting; once
    the logger is exiting it removes the thread from the logger, after which
    further wake-ups do nothing and the next append starts a new daemon. *)
Theorem daemon_wakeup_flushes_and_exits w :
  cls (self w) = EventLogger →
  _daemonThread (self w) = Some Alive →
  outcome flush w = Ok tt →
  let w' := daemon_wakeup w in
  disk w' = disk (exec flush w)
  ∧ __bytebuffer (self w') = []
  ∧ _values (self w') = ∅
  ∧ (_isExiting (self w) = false → w' = exec flush w
                                  ∧ _daemonThread (self w') = Some Alive)
  ∧ (_isExiting (self w) = true →
     _daemonThread (self w') = None
     ∧ (∀ n, daemon_wakeups n w' = w')
     ∧ ∀ b, _daemonThread (self (exec (appendBuffer b) w')) =
            match _flushSecs (self w) with
            | Some _ => Some Alive
            | None => None
            end).
Proof.
  intros Hcls Hth Hok w'.
  destruct (flush_settles w Hcls Hok) as (_ & Hb & Hv).
  pose proof (flush_keeps_thread w Hcls) as Hkeep.
  rewrite Hth in Hkeep. specialize (Hkeep ltac:(done)).
  assert (Hex : _isExiting (self (exec flush w)) = _isExiting (self w)).
  { unfold exec. rewrite flush_run by done. cbn zeta.
    assert (_isExiting (drained (self w)) = _isExiting (self w)) as Hd.
    { unfold drained, appended, spawned. case_bool_decide; [done|]. cbn.
      by destruct (_flushSecs (self w)), (_daemonThread (self w)). }
    destruct (__bytebuffer (drained (self w))); [done|].
    by destruct (writable (disk w)). }
  assert (Hfs : _flushSecs (self (exec flush w)) = _flushSecs (self w)).
  { unfold exec. rewrite flush_run by done. cbn zeta.
    destruct (__bytebuffer (drained (self w)));
      [cbn; apply flushSecs_drained|].
    destruct (writable (disk w)); cbn; apply flushSecs_drained. }
  assert (Hc1 : cls (self (exec flush w)) = EventLogger)
    by by rewrite (rtc_quiet_cls _ _ (flush_quiet w Hcls)).
  subst w'. unfold daemon_wakeup, _daemonRun_turn. rewrite Hth.
  unfold outcome, exec in *. run. rewrite Hcls.
  destruct (flush w) as [[[]|e] w1]; cbn in *; [|done].
  rewrite Hex. destruct (_isExiting (self w)); cbn.
  - split; [done|]. split; [done|]. split; [done|]. split; [done|].
    intros _. split; [done|]. split.
    + intros n. by apply daemon_wakeups_not_alive.
    + intros b. rewrite appendBuffer_run by done. cbn.
      unfold appended, spawned. cbn. rewrite Hfs.
      by destruct (_flushSecs (self w)).
  - split; [done|]. split; [done|]. split; [done|]. split; [done|]. done.
Qed.

End TraceFacts.

(** * The daemon after a flush that raised *)

Section DeadDaemon.

Context `{TfEvents} `{TfMedia}.
Implicit Types (w : World) (os : list Op).

(** Any of the six logging calls, as moves. *)
Lemma log_call_quiet ty tid tag c dn de pn pc w :
  cls (self w) = EventLogger →
  rtc quiet w (exec (log_call ty tid tag c dn de pn pc) w).
Proof.
  intros Hcls. unfold exec.
  destruct (log_call_cases ty tid tag c dn de pn pc w)
    as [[_ Hrun]|[[_ [e Hrun]]|[_ [val Hrun]]]]; rewrite Hrun; cbn [snd].
  - apply rtc_refl.
  - apply rtc_once, (quiet_tls <[tid := stack_of w tid]> w).
  - eapply rtc_l; [apply (quiet_tls <[tid := stack_of w tid]> w)|].
    fold (with_stack tid (stack_of w tid) w).
    destruct ty.
    + by apply record_quiet.
    + rewrite record_with_unicode_run by done. cbn [snd].
      unfold forced. case_bool_decide.
      * by apply rtc_once, quiet_drain.
      * rewrite with_self_id. apply rtc_refl.
Qed.

Lemma rtc_move_dead w w' :
  rtc move w w' →
  _daemonThread (self w) = Some Dead → _daemonThread (self w') = Some Dead.
Proof.
  induction 1 as [|a b c Hm _ IH]; [done|].
  intros Hd. apply IH. by apply (move_thread _ _ Hm).
Qed.

(** No later event turns the logger into another class or replaces a dead
    thread. *)
Lemma later_event_keeps_dead w w' :
  later_event w w' →
  cls (self w) = EventLogger → _daemonThread (self w) = Some Dead →
  cls (self w') = EventLogger ∧ _daemonThread (self w') = Some Dead.
Proof.
  intros Hev.
  destruct Hev as [o w0|ty tid tag c dn de pn pc w0|d w0]; intros Hcls Hd.
  - pose proof (run_op_moves o w0 Hcls) as Hm.
    split; [by rewrite (rtc_move_cls _ _ Hm)|by apply (rtc_move_dead w0)].
  - pose proof (rtc_quiet_move _ _
                  (log_call_quiet ty tid tag c dn de pn pc w0 Hcls)) as Hm.
    split; [by rewrite (rtc_move_cls _ _ Hm)|by apply (rtc_move_dead w0)].
  - done.
Qed.

(** A trace is a sequence of later events. *)
Lemma run_ops_later os w : rtc later_event w (run_ops os w).
Proof.
  revert w. induction os as [|o os IH]; intros w; [apply rtc_refl|].
  cbn [run_ops]. eapply rtc_l; [apply later_op|apply IH].
Qed.

(** C2, as the daemon has it: nothing in [_daemonRun] catches an
    exception.  When the flush of a wake-up raises, the exception leaves
    the loop and the thread ends.  Whatever happens to the logger
    afterwards, calls of its methods, the disk changing, wake-ups, the
    thread is still the dead one: a wake-up does nothing, and no append to
    the buffer starts another thread. *)
Theorem daemon_ends_on_flush_error w e :
  _daemonThread (self w) = Some Alive →
  outcome _daemonRun_turn w = Raise e →
  let w' := daemon_wakeup w in
  _daemonThread (self w') = Some Dead
  ∧ (∀ w'', rtc later_event w' w'' →
     _daemonThread (self w'') = Some Dead
     ∧ (∀ n, daemon_wakeups n w'' = w'')
     ∧ (∀ b, _daemonThread (self (exec (appendBuffer b) w'')) = Some Dead)).
Proof.
  intros Halive Hraise w'.
  assert (Hcls : cls (self w) = EventLogger).
  { unfold outcome, _daemonRun_turn in Hraise. run.
    by destruct (cls (self w)). }
  assert (Hrun : ∃ w1, _daemonRun_turn w = (Raise e, w1)
                       ∧ cls (self w1) = EventLogger).
  { unfold outcome in Hraise. unfold _daemonRun_turn in *. run.
    rewrite Hcls in *. pose proof (flush_quiet w Hcls) as Hq.
    apply rtc_quiet_cls in Hq. unfold exec in Hq.
    destruct (flush w) as [[[]|e'] w1]; cbn in *.
    - by destruct (_isExiting (self w1)).
    - exists w1. split; [congruence|by rewrite Hq]. }
  destruct Hrun as (w1 & Hrun & Hcls1).
  assert (Hw' : w' = set_self (with_daemonThread (Some Dead)) w1).
  { subst w'. unfold daemon_wakeup. by rewrite Halive, Hrun. }
  assert (Hdead : _daemonThread (self w') = Some Dead) by by rewrite Hw'.
  assert (Hcls' : cls (self w') = EventLogger) by by rewrite Hw'.
  split; [done|]. intros w'' Hlater.
  assert (Hinv : cls (self w'') = EventLogger
                 ∧ _daemonThread (self w'') = Some Dead).
  { clear Hw'. induction Hlater as [|a b c Hev _ IH]; [done|].
    destruct (later_event_keeps_dead a b Hev Hcls' Hdead) as [Hc Hd].
    by apply IH. }
  destruct Hinv as [Hcls'' Hd'']. split; [done|]. split.
  - intros n. apply daemon_wakeups_not_alive. by rewrite Hd''.
  - intros b. unfold appendBuffer, _spawnDaemonThread. run.
    rewrite Hcls''. cbn. rewrite Hcls''. cbn. rewrite Hd''.
    by destruct (_flushSecs (self w'')).
Qed.

End DeadDaemon.

Lemma daemon_ends_witness :
  let later :=
    [ ODisk true;
      OLogScalar 0 "loss" (ScalarNum (1 # 2)) None None None None;
      OWakeup;
      OLogMessage "OOM" ERROR;
      OStep None ] in
  _daemonThread (self w_refusing) = Some Alive
  ∧ _daemonThread (self (daemon_wakeup w_refusing)) = Some Dead
  ∧ _daemonThread (self (run_ops later (daemon_wakeup w_refusing))) = Some Dead
  ∧ daemon_wakeups 3 (run_ops later (daemon_wakeup w_refusing)) =
      run_ops later (daemon_wakeup w_refusing)
  ∧ _daemonThread
      (self (exec (appendBuffer [x09])
               (run_ops later (daemon_wakeup w_refusing)))) = Some Dead.
Proof.
  intros later.
  assert (Ha : _daemonThread (self w_refusing) = Some Alive)
    by (vm_compute; reflexivity).
  assert (Hr : outcome _daemonRun_turn w_refusing = Raise IOError)
    by (vm_compute; reflexivity).
  destruct (daemon_ends_on_flush_error w_refusing IOError Ha Hr)
    as (Hdead & Hstop).
  destruct (Hstop _ (run_ops_later later (daemon_wakeup w_refusing)))
    as (Hstill & Hidle & Hnew).
  split; [exact Ha|]. split; [exact Hdead|]. split; [exact Hstill|].
  split; [exact (Hidle 3%nat)|exact (Hnew [x09])].
Defined.

(** * Scopes and resolved tags *)

Section ScopeLaws.

Implicit Types (w : World) (tid : nat) (st names : list string).

Lemma names_ok_app ver names1 names2 :
  names_ok ver (names1 ++ names2) =
  names_ok ver names1 && names_ok ver names2.
Proof. apply forallb_app. Qed.

Lemma names_ok_invalid ver names g :
  g ∈ names → g = EmptyString ∨ PyStr.contains_sep g = true →
  names_ok ver names = false.
Proof.
  intros Hin Hbad. apply not_true_iff_false. intros Hok.
  unfold names_ok in Hok. rewrite forallb_forall in Hok.
  apply list_elem_of_In in Hin. specialize (Hok g Hin).
  unfold name_ok in Hok.
  apply andb_true_iff in Hok as [Hok Hsep].
  apply andb_true_iff in Hok as [_ Hne].
  destruct Hbad as [-> | Hc]; [done|].
  by rewrite Hc in Hsep.
Qed.

(** X9: the names of a scope are all checked before any is pushed.  One
    empty name, or one name with a separator in it, makes the scope raise
    [AssertionError]; the body does not run and the world is as it was,
    the valid names before the bad one not pushed either. *)
Theorem tagscope_checks_before_pushing {A} ver tid names g (body : M A) w :
  g ∈ names →
  g = EmptyString ∨ PyStr.contains_sep g = true →
  py_with (tagscope ver tid names) body w = (Raise AssertionError, w).
Proof.
  intros Hin Hbad. apply py_with_tagscope_rejects.
  by apply (names_ok_invalid ver names g).
Qed.

(** X10: under Python 3 a scope with at least one name always raises
    [AssertionError] and pushes nothing: the name is encoded to [bytes]
    and then required to be a [str]. *)
Theorem tagscope_unusable_on_python3 {A} tid names (body : M A) w :
  names ≠ [] →
  py_with (tagscope Py3 tid names) body w = (Raise AssertionError, w)
  ∧ stack_of (exec (py_with (tagscope Py3 tid names) body) w) tid =
      stack_of w tid.
Proof.
  intros Hne.
  assert (Hrun : py_with (tagscope Py3 tid names) body w =
                 (Raise AssertionError, w))
    by by apply py_with_tagscope_rejects, python3_rejects_every_name.
  split; [done|]. unfold exec. by rewrite Hrun.
Qed.

(** X11: scopes nest by concatenation.  A tag resolved inside a scope that
    is itself inside a scope resolves as inside one scope with the names of
    both, outer first; and after both have returned the stack of the thread
    is what it was. *)
Theorem nested_tagscopes_concatenate ver tid names1 names2 tag w :
  names_ok ver names1 = true →
  names_ok ver names2 = true →
  PyStr.startswith_sep tag = false →
  let nested :=
    py_with (tagscope ver tid names1)
      (py_with (tagscope ver tid names2) (getFullTag tid tag)) in
  outcome nested w =
    Ok (PyStr.join (stack_of w tid ++ names1 ++ names2 ++
                    [PyStr.re_sub_seps tag]))
  ∧ outcome nested w =
      outcome (py_with (tagscope ver tid (names1 ++ names2))
                 (getFullTag tid tag)) w
  ∧ stack_of (exec nested w) tid = stack_of w tid.
Proof.
  intros Hok1 Hok2 Htag nested. subst nested.
  destruct (resolve_in_scope ver tid names2 tag (entered tid names1 w)
              Hok2 Htag) as (w2 & Hin & Hst2 & _).
  rewrite stack_of_entered, <- app_assoc in Hin.
  rewrite stack_of_entered in Hst2.
  pose proof (py_with_tagscope_returns ver tid names1 _ w _ w2 Hok1 Hin Hst2)
    as Hrun.
  assert (Hok12 : names_ok ver (names1 ++ names2) = true)
    by by rewrite names_ok_app, Hok1, Hok2.
  destruct (resolve_in_scope ver tid (names1 ++ names2) tag w Hok12 Htag)
    as (w3 & Hone & _).
  rewrite <- app_assoc in Hone.
  unfold outcome, exec. rewrite Hrun, Hone. cbn [fst snd].
  split; [done|]. split; [done|].
  by apply stack_of_left_scope.
Qed.

Lemma no_sep_then_sep n s :
  PyStr.contains_sep n = false →
  PyStr.startswith_sep s = false →
  PyStr.no_double_sep s = true →
  PyStr.no_double_sep (n +:+ String PyStr.sep s) = true.
Proof.
  intros Hn Hs Hd. induction n as [|c n IH].
  - change (PyStr.no_double_sep (String PyStr.sep s) = true).
    cbn [PyStr.no_double_sep]. by rewrite Ascii.eqb_refl, Hs, Hd.
  - cbn [PyStr.contains_sep] in Hn. apply orb_false_iff in Hn as [Hc Hn].
    change (PyStr.no_double_sep
              (String c (n +:+ String PyStr.sep s)) = true).
    cbn [PyStr.no_double_sep]. rewrite Hc. cbn [andb negb]. by apply IH.
Qed.

Lemma join_well_formed names t :
  names_ok Py2 names = true →
  PyStr.startswith_sep t = false →
  PyStr.no_double_sep t = true →
  PyStr.startswith_sep (PyStr.join (names ++ [t])) = false
  ∧ PyStr.no_double_sep (PyStr.join (names ++ [t])) = true.
Proof.
  intros Hok Hs Hd. induction names as [|n rest IH]; [done|].
  cbn [names_ok forallb] in Hok. apply andb_true_iff in Hok as [Hn Hok].
  destruct (IH Hok) as [IHs IHd].
  apply python2_name_ok in Hn as [Hne Hsep].
  change (PyStr.join ((n :: rest) ++ [t]))
    with (PyStr.join (n :: (rest ++ [t]))).
  destruct (rest ++ [t]) as [|r rs] eqn:Hr; [by destruct rest|].
  change (PyStr.join (n :: r :: rs))
    with (n +:+ String PyStr.sep (PyStr.join (r :: rs))).
  split; [|by apply no_sep_then_sep].
  destruct n as [|c n]; [done|]. cbn [PyStr.contains_sep] in Hsep.
  apply orb_false_iff in Hsep as [Hc _].
  change (Ascii.eqb c PyStr.sep = false). exact Hc.
Qed.

(** X12: a resolved tag is well formed.  When the names on the stack of the
    thread are names a scope accepts, every tag that resolution accepts
    resolves to a string that does not start with the separator and has no
    two separators in a row, whatever runs of separators the tag had. *)
Theorem resolved_tag_is_well_formed tid tag w :
  names_ok Py2 (stack_of w tid) = true →
  PyStr.startswith_sep tag = false →
  ∃ full,
    outcome (getFullTag tid tag) w = Ok full
    ∧ PyStr.startswith_sep full = false
    ∧ PyStr.no_double_sep full = true.
Proof.
  intros Hok Htag. unfold outcome. rewrite getFullTag_run, Htag.
  eexists. split; [done|].
  apply join_well_formed; [done| |apply PyStrFacts.re_sub_seps_no_double].
  by rewrite PyStrFacts.re_sub_seps_startswith.
Qed.

Lemma scope_pop_stack tid w :
  stack_of (snd (scope_pop tid w)) tid = removelast (stack_of w tid).
Proof.
  unfold scope_pop. run. rewrite tagScopePath_run.
  destruct (stack_of w tid) as [|x st] eqn:Hst; cbn [snd].
  - by rewrite stack_of_with_stack.
  - fold (with_stack tid (removelast (x :: st)) (with_stack tid (x :: st) w)).
    by rewrite stack_of_with_stack.
Qed.

Lemma names_ok_removelast ver names :
  names_ok ver names = true → names_ok ver (removelast names) = true.
Proof.
  induction names as [|n [|m rest] IH]; [done|done|].
  intros Hok. cbn [names_ok forallb] in Hok.
  apply andb_true_iff in Hok as [Hn Hok].
  change (removelast (n :: m :: rest)) with (n :: removelast (m :: rest)).
  cbn [names_ok forallb]. rewrite Hn. by apply IH.
Qed.

Lemma scope_pops_keep_valid {A} tid (xs : list A) w :
  names_ok Py2 (stack_of w tid) = true →
  names_ok Py2
    (stack_of (snd (for_each xs (fun _ => scope_pop tid) w)) tid) = true.
Proof.
  revert w. induction xs as [|x xs IH]; intros w Hok; [done|].
  cbn [for_each]. unfold mbind, M_bind, bind.
  pose proof (scope_pop_stack tid w) as Hpop.
  destruct (scope_pop tid w) as [[[]|e] w1]; cbn [snd] in *.
  - apply IH. rewrite Hpop. by apply names_ok_removelast.
  - rewrite Hpop. by apply names_ok_removelast.
Qed.

(** X13: a scope keeps the stack well formed.  Entering a scope on a stack
    of accepted names leaves a stack of accepted names, under either
    version of Python and whether the names of the scope are accepted or
    not; so does leaving one, also when it pops more than there is. *)
Theorem tagscope_keeps_stack_valid ver tid names w :
  names_ok Py2 (stack_of w tid) = true →
  names_ok Py2
    (stack_of (exec (before_yield (tagscope ver tid names)) w) tid) = true
  ∧ names_ok Py2
      (stack_of (exec (after_yield (tagscope ver tid names)) w) tid) = true.
Proof.
  intros Hok. split; [|by apply scope_pops_keep_valid].
  unfold exec. rewrite tagscope_enter_run.
  destruct (names_ok ver names) eqn:Hn; [|done]. cbn [snd].
  fold (entered tid names w). rewrite stack_of_entered, names_ok_app, Hok.
  destruct ver; [done|]. by destruct names.
Qed.

End ScopeLaws.

(** * The stack of default loggers *)

Section DefaultLoggers.

Implicit Types (r : gmap nat (list nat)) (tid id : nat).

Lemma enter_lookup id tid r :
  __enter__ id tid r !! tid = Some (default [] (r !! tid) ++ [id]).
Proof. unfold __enter__. by rewrite lookup_insert_eq. Qed.

Lemma getDefault_stack tid r st :
  r !! tid = Some st →
  fst (getDefault tid r) =
  match last st with Some o => Obj o | None => FreshNull end.
Proof. intros Hr. unfold getDefault. by rewrite Hr. Qed.

Lemma getDefault_default tid r :
  fst (getDefault tid r) =
  match last (default [] (r !! tid)) with
  | Some o => Obj o
  | None => FreshNull
  end.
Proof. unfold getDefault. by destruct (r !! tid). Qed.

(** X14: [with logger:] makes the logger the default of the thread for the
    body and gives the previous default back afterwards, whether the body
    returns or raises: the exit pops in both cases and lets the outcome of
    the body through. *)
Theorem with_logger_restores_default {A} id tid
    (body : gmap nat (list nat) → (RegistryExc + A) * gmap nat (list nat))
    r res r2 :
  body (__enter__ id tid r) = (res, r2) →
  r2 !! tid = __enter__ id tid r !! tid →
  fst (getDefault tid (__enter__ id tid r)) = Obj id
  ∧ ∃ r3,
      with_logger id tid body r = (res, r3)
      ∧ r3 !! tid = Some (default [] (r !! tid))
      ∧ (∀ t, t ≠ tid → r3 !! t = r2 !! t)
      ∧ fst (getDefault tid r3) = fst (getDefault tid r).
Proof.
  intros Hbody Hbal. rewrite enter_lookup in Hbal. split.
  { rewrite (getDefault_stack _ _ _ (enter_lookup id tid r)).
    by rewrite last_snoc. }
  unfold with_logger. rewrite Hbody. unfold __exit__. rewrite Hbal.
  destruct (default [] (r !! tid) ++ [id]) as [|o st] eqn:Hst;
    [by destruct (default [] (r !! tid))|].
  rewrite <- Hst, removelast_last. eexists. split; [done|].
  split; [by rewrite lookup_insert_eq|].
  split; [intros t Hne; by rewrite lookup_insert_ne|].
  rewrite (getDefault_default tid r).
  by rewrite (getDefault_stack _ _ (default [] (r !! tid)))
    by by rewrite lookup_insert_eq.
Qed.

(** X15: the default logger is a matter of one thread.  A logger entered
    in one thread is not the default of any other thread, and a thread with
    no logger entered gets the null logger. *)
Theorem default_logger_is_per_thread id tid t r :
  t ≠ tid →
  fst (getDefault t (__enter__ id tid r)) = fst (getDefault t r)
  ∧ (default [] (r !! t) = [] →
     fst (getDefault t (__enter__ id tid r)) = FreshNull).
Proof.
  intros Hne.
  assert (Heq : fst (getDefault t (__enter__ id tid r)) = fst (getDefault t r)).
  { rewrite !getDefault_default. unfold __enter__.
    by rewrite lookup_insert_ne. }
  split; [done|]. intros Hempty.
  by rewrite Heq, getDefault_default, Hempty.
Qed.

(** X16: an exit that no entry matches raises, and what it raises depends
    on the history of the thread: [AttributeError] in a thread that never
    entered a logger nor asked for the default, [IndexError] once the
    thread has done either and its stack is empty again. *)
Theorem unmatched_exit_raises id tid r :
  r !! tid = None →
  __exit__ tid r = inl AttributeError
  ∧ __exit__ tid (snd (getDefault tid r)) = inl (Builtin IndexError)
  ∧ ∃ r1, __exit__ tid (__enter__ id tid r) = inr r1
          ∧ __exit__ tid r1 = inl (Builtin IndexError).
Proof.
  intros Hr. unfold __exit__ at 1. rewrite Hr. split; [done|]. split.
  - unfold getDefault, __exit__. rewrite Hr. cbn.
    by rewrite lookup_insert_eq.
  - unfold __exit__, __enter__. rewrite Hr. cbn.
    rewrite lookup_insert_eq. cbn. eexists. split; [done|].
    by rewrite lookup_insert_eq.
Qed.

End DefaultLoggers.

(** * From construction to the file *)

Section FromConstructionToFile.

Context `{TfEvents}.

Lemma init_inversion logDir step flushSecs now uuid4 d l :
  EventLogger_init logDir step flushSecs now uuid4 d = Ok l →
  isdir d logDir = true
  ∧ isfile d (_logFilePath l) = false
  ∧ cls l = EventLogger
  ∧ _logFilePath l =
      PyStr.path_join logDir ("tfevents." +:+ now +:+ "." +:+ uuid4 +:+ ".out")
  ∧ _currentStep l = default 0 step
  ∧ _values l = ∅
  ∧ _metadata l = ∅
  ∧ __bytebuffer l =
      header_bytes (default 0 step) ++
      match step with Some s => restart_bytes s logDir | None => [] end.
Proof.
  unfold EventLogger_init, _logFilePath, _logFileName. cbn.
  destruct (isdir d logDir); [|done]. cbn.
  destruct (isfile d _) eqn:Hf; [done|].
  destruct step as [s|]; cbn; intros [= <-]; cbn;
    rewrite ?app_nil_r; done.
Qed.


(** X17: the path of a log file belongs to one logger.  Once a logger has
    flushed, its file exists, and building another logger for the same
    directory, creation time and identifier fails with [AssertionError],
    whatever step or flush interval it is given. *)
Theorem log_file_path_is_exclusive logDir step flushSecs now uuid4 d l tls0 :
  EventLogger_init logDir step flushSecs now uuid4 d = Ok l →
  writable d = true →
  header_bytes (default 0 step) ≠ [] →
  let w := {| tls := tls0; self := l; disk := d |} in
  outcome flush w = Ok tt
  ∧ isfile (disk (exec flush w)) (_logFilePath l) = true
  ∧ ∀ step' flushSecs',
      EventLogger_init logDir step' flushSecs' now uuid4 (disk (exec flush w)) =
      Raise AssertionError.
Proof.
  intros Hinit Hw Hhead w.
  destruct (init_inversion _ _ _ _ _ _ _ Hinit)
    as (Hdir & Hfile & Hcls & Hpath & _ & Hv & _ & Hbuf).
  assert (Hflush : flush w =
            (Ok tt,
             {| tls := tls0;
                self := with_bytebuffer [] (drained l);
                disk := written (_logFilePath l)
                          (__bytebuffer l ++ summary_bytes l) d |}))
    by by apply (flush_writable w).
  unfold outcome, exec. rewrite Hflush. cbn [fst snd disk].
  assert (Hne : __bytebuffer l ++ summary_bytes l ≠ []).
  { rewrite Hbuf. intros He. apply app_eq_nil in He as [He _].
    by apply app_eq_nil in He as [He _]. }
  assert (Hexists : isfile (written (_logFilePath l)
                      (__bytebuffer l ++ summary_bytes l) d)
                      (_logFilePath l) = true).
  { unfold isfile, written.
    destruct (__bytebuffer l ++ summary_bytes l); [done|]. cbn [files].
    rewrite lookup_insert_eq. by apply bool_decide_eq_true_2. }
  split; [done|]. split; [done|]. intros step' flushSecs'.
  unfold EventLogger_init. cbn [_logDir _logFilePath].
  assert (Hd : isdir (written (_logFilePath l)
                 (__bytebuffer l ++ summary_bytes l) d) logDir = true).
  { unfold isdir, written in *.
    by destruct (__bytebuffer l ++ summary_bytes l). }
  rewrite Hd. cbn [negb].
  match goal with
  | |- context [isfile ?dsk ?q] =>
      change q with (PyStr.path_join logDir
                       ("tfevents." +:+ now +:+ "." +:+ uuid4 +:+ ".out"))
  end.
  by rewrite <- Hpath, Hexists.
Qed.


End FromConstructionToFile.

(** * The trace laws at work on the reference framing *)

Import RefTraces.


Lemma trace_seen_tags_grow_witness :
  "loss" ∈ _metadata (self (run_ops trace0 w_pending)).
Proof.
  assert (Hcls : cls (self w_pending) = EventLogger) by (vm_compute; reflexivity).
  assert (Hin : ∀ t, is_Some (_values (self w_pending) !! t) →
                     t ∈ _metadata (self w_pending)).
  { intros t. destruct (decide (t = "loss")) as [->|Hne].
    - intros _. vm_compute. reflexivity.
    - assert (Hv : _values (self w_pending) = {[ "loss" := loss (1 # 2) ]})
        by (vm_compute; reflexivity).
      rewrite Hv, lookup_singleton_ne by done. by intros [? ?]. }
  destruct (trace_seen_tags_grow trace0 w_pending Hcls Hin) as [Hsub _].
  apply Hsub. vm_compute. reflexivity.
Defined.

Lemma seen_tag_loses_metadata_witness :
  _values (self (exec (record "loss" loss_named) (run_ops trace0 w_pending)))
    !! "loss" = Some (loss (1 # 4)).
Proof.
  assert (Hcls : cls (self w_pending) = EventLogger) by (vm_compute; reflexivity).
  assert (Hseen : "loss" ∈ _metadata (self w_pending))
    by (vm_compute; reflexivity).
  exact (seen_tag_loses_metadata trace0 "loss" loss_named w_pending Hcls Hseen).
Defined.

Lemma trace_daemon_never_appears_witness :
  _daemonThread (self (run_ops trace0 w_fresh)) = None.
Proof.
  assert (Hcls : cls (self w_fresh) = EventLogger) by (vm_compute; reflexivity).
  assert (Hf : _flushSecs (self w_fresh) = None) by (vm_compute; reflexivity).
  assert (Ht : _daemonThread (self w_fresh) = None) by (vm_compute; reflexivity).
  destruct (trace_daemon_never_appears trace0 w_fresh Hcls) as [Hnone _].
  exact (Hnone Hf Ht).
Defined.

Lemma trace_step_counts_advances_witness :
  _currentStep (self (run_ops trace0 w_pending)) = 7.
Proof.
  assert (Hcls : cls (self w_pending) = EventLogger) by (vm_compute; reflexivity).
  assert (Hno : forallb (fun o => negb (is_setStep o)) trace0 = true)
    by (vm_compute; reflexivity).
  rewrite (trace_step_counts_advances trace0 w_pending Hcls Hno).
  vm_compute. reflexivity.
Defined.

Lemma null_logger_is_inert_witness :
  files (disk (run_ops trace0 w_null)) = files (disk w_null)
  ∧ __bytebuffer (self (run_ops trace0 w_null)) = []
  ∧ _currentStep (self (run_ops trace0 w_null)) = 0.
Proof.
  assert (Hcls : cls (self w_null) = NullEventLogger) by (vm_compute; reflexivity).
  assert (Hv : _values (self w_null) = ∅) by (vm_compute; reflexivity).
  destruct (null_logger_is_inert trace0 w_null Hcls Hv)
    as (Hf & _ & Hb & _ & _ & Hs & _).
  cbv zeta in Hf, Hb, Hs. rewrite Hb, Hs. split; [exact Hf|].
  vm_compute. repeat split.
Defined.

Lemma flush_twice_witness :
  flush (exec flush w_pending) = (Ok tt, exec flush w_pending).
Proof.
  assert (Hcls : cls (self w_pending) = EventLogger) by (vm_compute; reflexivity).
  assert (Hok : outcome flush w_pending = Ok tt) by (vm_compute; reflexivity).
  destruct (flush_twice_is_flush_once w_pending Hcls) as [_ Htwice].
  exact (proj1 (Htwice Hok)).
Defined.

Lemma daemon_wakeup_witness :
  daemon_wakeup w_alive = exec flush w_alive
  ∧ _daemonThread (self (daemon_wakeup w_alive)) = Some Alive
  ∧ _daemonThread (self (daemon_wakeup w_exiting)) = None.
Proof.
  assert (Hc1 : cls (self w_alive) = EventLogger) by (vm_compute; reflexivity).
  assert (Ha1 : _daemonThread (self w_alive) = Some Alive)
    by (vm_compute; reflexivity).
  assert (Ho1 : outcome flush w_alive = Ok tt) by (vm_compute; reflexivity).
  assert (Hc2 : cls (self w_exiting) = EventLogger) by (vm_compute; reflexivity).
  assert (Ha2 : _daemonThread (self w_exiting) = Some Alive)
    by (vm_compute; reflexivity).
  assert (Ho2 : outcome flush w_exiting = Ok tt) by (vm_compute; reflexivity).
  assert (He1 : _isExiting (self w_alive) = false) by (vm_compute; reflexivity).
  assert (He2 : _isExiting (self w_exiting) = true) by (vm_compute; reflexivity).
  destruct (daemon_wakeup_flushes_and_exits w_alive Hc1 Ha1 Ho1)
    as (_ & _ & _ & Hrun & _).
  destruct (daemon_wakeup_flushes_and_exits w_exiting Hc2 Ha2 Ho2)
    as (_ & _ & _ & _ & Hexit).
  destruct (Hrun He1) as [Heq Hal]. destruct (Hexit He2) as [Hnone _].
  split; [exact Heq|]. split; [exact Hal|exact Hnone].
Defined.

Lemma tagscope_checks_witness :
  py_with (tagscope Py2 0 ["a"; "b/c"]) (getFullTag 0 "x") w_fresh =
  (Raise AssertionError, w_fresh).
Proof.
  assert (Hin : "b/c" ∈ ["a"; "b/c"]) by (apply list_elem_of_In; simpl; auto).
  assert (Hbad : "b/c" = EmptyString ∨ PyStr.contains_sep "b/c" = true)
    by (right; reflexivity).
  exact (tagscope_checks_before_pushing Py2 0 ["a"; "b/c"] "b/c"
           (getFullTag 0 "x") w_fresh Hin Hbad).
Defined.

Lemma tagscope_python3_witness :
  py_with (tagscope Py3 0 ["a"]) (getFullTag 0 "x") w_fresh =
  (Raise AssertionError, w_fresh).
Proof.
  assert (Hne : ["a"] ≠ ([] : list string)) by discriminate.
  exact (proj1 (tagscope_unusable_on_python3 0 ["a"] (getFullTag 0 "x")
                  w_fresh Hne)).
Defined.

Lemma nested_tagscopes_witness :
  outcome (py_with (tagscope Py2 0 ["a"])
             (py_with (tagscope Py2 0 ["b"; "c"]) (getFullTag 0 "x//y")))
    w_fresh = Ok "a/b/c/x/y".
Proof.
  assert (H1 : names_ok Py2 ["a"] = true) by (vm_compute; reflexivity).
  assert (H2 : names_ok Py2 ["b"; "c"] = true) by (vm_compute; reflexivity).
  assert (Ht : PyStr.startswith_sep "x//y" = false) by reflexivity.
  destruct (nested_tagscopes_concatenate Py2 0 ["a"] ["b"; "c"] "x//y"
              w_fresh H1 H2 Ht) as (Hout & _).
  cbv zeta in Hout. rewrite Hout. vm_compute. reflexivity.
Defined.

Lemma resolved_tag_witness :
  ∃ full, outcome (getFullTag 0 "x//y") w_fresh = Ok full
          ∧ PyStr.startswith_sep full = false
          ∧ PyStr.no_double_sep full = true.
Proof.
  assert (Hok : names_ok Py2 (stack_of w_fresh 0) = true)
    by (vm_compute; reflexivity).
  assert (Ht : PyStr.startswith_sep "x//y" = false) by reflexivity.
  exact (resolved_tag_is_well_formed 0 "x//y" w_fresh Hok Ht).
Defined.

Lemma tagscope_keeps_stack_valid_witness :
  names_ok Py2
    (stack_of (exec (before_yield (tagscope Py2 0 ["a"; "b"])) w_fresh) 0) = true.
Proof.
  assert (Hok : names_ok Py2 (stack_of w_fresh 0) = true)
    by (vm_compute; reflexivity).
  exact (proj1 (tagscope_keeps_stack_valid Py2 0 ["a"; "b"] w_fresh Hok)).
Defined.

Lemma with_logger_witness :
  ∃ r3, with_logger 7 0 body_raises {[ 0%nat := [3%nat] ]} =
          (inl (Builtin ValueError), r3)
        ∧ fst (getDefault 0 r3) = Obj 3.
Proof.
  assert (Hbody : body_raises (__enter__ 7 0 {[ 0%nat := [3%nat] ]}) =
                  (inl (Builtin ValueError), __enter__ 7 0 {[ 0%nat := [3%nat] ]}))
    by reflexivity.
  destruct (with_logger_restores_default 7 0 body_raises {[ 0%nat := [3%nat] ]}
              _ _ Hbody eq_refl) as (_ & r3 & Hrun & _ & _ & Hdef).
  exists r3. split; [exact Hrun|]. rewrite Hdef. vm_compute. reflexivity.
Defined.

Lemma default_logger_per_thread_witness :
  fst (getDefault 1 (__enter__ 7 0 ∅)) = FreshNull.
Proof.
  assert (Hne : 1%nat ≠ 0%nat) by discriminate.
  assert (He : default [] ((∅ : gmap nat (list nat)) !! 1%nat) = [])
    by reflexivity.
  exact (proj2 (default_logger_is_per_thread 7 0 1 ∅ Hne) He).
Defined.

Lemma unmatched_exit_witness :
  __exit__ 0 ∅ = inl AttributeError
  ∧ __exit__ 0 (snd (getDefault 0 ∅)) = inl (Builtin IndexError).
Proof.
  assert (Hr : (∅ : gmap nat (list nat)) !! 0%nat = None) by reflexivity.
  destruct (unmatched_exit_raises 7 0 ∅ Hr) as (Ha & Hi & _).
  split; [exact Ha|exact Hi].
Defined.

Lemma log_file_path_exclusive_witness :
  EventLogger_init "logs" (Some 3) None "000000001700000000.000000000" "u"
    (disk (exec flush (world0 (fresh (Some 0) None)))) = Raise AssertionError.
Proof.
  assert (Hinit : EventLogger_init "logs" (Some 0) None
                    "000000001700000000.000000000" "u" disk0 =
                  Ok (fresh (Some 0) None)) by (vm_compute; reflexivity).
  assert (Hw : writable disk0 = true) by reflexivity.
  assert (Hh : header_bytes (default 0 (Some 0)) ≠ [])
    by (vm_compute; discriminate).
  destruct (log_file_path_is_exclusive "logs" (Some 0) None
              "000000001700000000.000000000" "u" disk0 (fresh (Some 0) None)
              ∅ Hinit Hw Hh) as (_ & _ & Hexcl).
  exact (Hexcl (Some 3) None).
Defined.


(** * Disposal, and calls with no logger entered *)

Section DisposalAndGlobals.

Context `{TfEvents}.
Implicit Types (w : World) (p : Process).

Lemma isExiting_flush w :
  cls (self w) = EventLogger →
  _isExiting (self (exec flush w)) = _isExiting (self w).
Proof.
  intros Hcls. unfold exec. rewrite flush_run by done. cbn zeta.
  assert (_isExiting (drained (self w)) = _isExiting (self w)) as Hd.
  { unfold drained, appended, spawned. case_bool_decide; [done|]. cbn.
    by destruct (_flushSecs (self w)), (_daemonThread (self w)). }
  destruct (__bytebuffer (drained (self w))); [done|].
  by destruct (writable (disk w)).
Qed.

(** X19: disposal marks the logger as exiting only after its flush has
    succeeded.  Then everything is in the file and the buffer and batch are
    empty.  When the flush raises, the exception leaves [__del__] before the
    mark is set: the logger is left as the failed flush left it, and a
    running daemon is not told to stop. *)
Theorem del_marks_exiting_after_flush w :
  cls (self w) = EventLogger →
  (outcome flush w = Ok tt →
     outcome __del__ w = Ok tt
     ∧ _isExiting (self (exec __del__ w)) = true
     ∧ __bytebuffer (self (exec __del__ w)) = []
     ∧ _values (self (exec __del__ w)) = ∅
     ∧ disk (exec __del__ w) = disk (exec flush w))
  ∧ (∀ e, outcome flush w = Raise e →
     outcome __del__ w = Raise e
     ∧ exec __del__ w = exec flush w
     ∧ _isExiting (self (exec __del__ w)) = _isExiting (self w)
     ∧ _daemonThread (self (exec __del__ w)) = _daemonThread (self (exec flush w))).
Proof.
  intros Hcls.
  pose proof (flush_settles w Hcls) as Htwice.
  pose proof (isExiting_flush w Hcls) as Hex.
  unfold __del__, outcome, exec in *. run.
  destruct (flush w) as [[[]|e0] w1]; cbn in *; split.
  - intros _. destruct (Htwice eq_refl) as (_ & Hb & Hv). done.
  - intros e [=].
  - intros [=].
  - intros e [= <-]. done.
Qed.

Lemma on_default_without_logger {A} tid (m : M A) p :
  default [] (stacks p !! tid) = [] →
  let w0 := {| tls := scopes p; self := NullEventLogger_init;
               disk := pdisk p |} in
  fst (on_default tid m p) = fst (m w0)
  ∧ heap (snd (on_default tid m p)) = heap p
  ∧ pdisk (snd (on_default tid m p)) = disk (snd (m w0))
  ∧ scopes (snd (on_default tid m p)) = tls (snd (m w0)).
Proof.
  intros Hempty w0. subst w0. unfold on_default, getDefault.
  destruct (stacks p !! tid) as [st|]; cbn in Hempty; [subst st|];
    unfold call_method; cbn;
    by destruct (m {| tls := scopes p; self := NullEventLogger_init;
                      disk := pdisk p |}).
Qed.

Lemma on_default_dropped {A} tid (m : M A) o p :
  default [] (stacks p !! tid) = [] →
  (∀ w, snd (m w) = run_op o w) →
  heap (snd (on_default tid m p)) = heap p
  ∧ files (pdisk (snd (on_default tid m p))) = files (pdisk p)
  ∧ dirs (pdisk (snd (on_default tid m p))) = dirs (pdisk p).
Proof.
  intros Hempty Hop.
  destruct (on_default_without_logger tid m p Hempty) as (_ & Hh & Hd & _).
  rewrite Hh, Hd, Hop.
  destruct (null_run_op o
              {| tls := scopes p; self := NullEventLogger_init;
                 disk := pdisk p |} eq_refl eq_refl)
    as (_ & _ & Hf & Hdirs & _). done.
Qed.

Lemma null_message_returns msg level w :
  cls (self w) = NullEventLogger → _values (self w) = ∅ →
  fst (logMessage msg level w) = Ok tt.
Proof.
  intros Hcls Hv. unfold logMessage. run.
  rewrite idle_appendSummary by done. cbn.
  rewrite null_appendBuffer by done. cbn. by rewrite null_flush.
Qed.

Lemma null_session_returns status msg path w :
  cls (self w) = NullEventLogger → _values (self w) = ∅ →
  fst (logSession status msg path w) = Ok tt.
Proof.
  intros Hcls Hv. unfold logSession. run.
  rewrite idle_appendSummary by done. cbn.
  rewrite null_appendBuffer by done. cbn. by rewrite null_flush.
Qed.

(** X20: with no logger entered in the thread, the module-level logging
    functions drop what they are given.  The call goes to a null logger
    built for it: no logger object changes, no file or directory is
    written, and a message or session record is reported as logged. *)
Theorem module_level_calls_without_logger_are_dropped
    tid tag scalar image csc h wd dn de pn pc msg level status smsg spath p :
  default [] (stacks p !! tid) = [] →
  let kept (q : Process) :=
    heap q = heap p
    ∧ files (pdisk q) = files (pdisk p)
    ∧ dirs (pdisk q) = dirs (pdisk p) in
  kept (snd (Globals.logScalar tid tag scalar dn de pn pc p))
  ∧ kept (snd (Globals.logImage tid tag image csc h wd dn de pn pc p))
  ∧ kept (snd (Globals.logMessage tid msg level p))
  ∧ kept (snd (Globals.logSession tid status smsg spath p))
  ∧ fst (Globals.logMessage tid msg level p) = Ok tt
  ∧ fst (Globals.logSession tid status smsg spath p) = Ok tt.
Proof.
  intros Hempty kept. subst kept. cbv beta.
  unfold Globals.logScalar, Globals.logImage, Globals.logMessage,
    Globals.logSession.
  split; [by apply (on_default_dropped tid _
                      (OLogScalar tid tag scalar dn de pn pc))|].
  split; [by apply (on_default_dropped tid _
                      (OLogImage tid tag image csc h wd dn de pn pc))|].
  split; [by apply (on_default_dropped tid _ (OLogMessage msg level))|].
  split; [by apply (on_default_dropped tid _
                      (OLogSession status smsg spath))|].
  split.
  - destruct (on_default_without_logger tid (logMessage msg level) p Hempty)
      as (Hr & _). rewrite Hr. by apply null_message_returns.
  - destruct (on_default_without_logger tid (logSession status smsg spath)
                p Hempty) as (Hr & _).
    rewrite Hr. by apply null_session_returns.
Qed.

End DisposalAndGlobals.

Lemma del_marks_exiting_witness :
  _isExiting (self (exec __del__ w_pending)) = true
  ∧ outcome __del__ w_refusing = Raise IOError
  ∧ _isExiting (self (exec __del__ w_refusing)) = false.
Proof.
  assert (Hc1 : cls (self w_pending) = EventLogger) by (vm_compute; reflexivity).
  assert (Hc2 : cls (self w_refusing) = EventLogger) by (vm_compute; reflexivity).
  assert (Ho : outcome flush w_pending = Ok tt) by (vm_compute; reflexivity).
  assert (Hr : outcome flush w_refusing = Raise IOError)
    by (vm_compute; reflexivity).
  destruct (del_marks_exiting_after_flush w_pending Hc1) as [Hgood _].
  destruct (del_marks_exiting_after_flush w_refusing Hc2) as [_ Hbad].
  destruct (Hgood Ho) as (_ & Hex & _).
  destruct (Hbad IOError Hr) as (Hraise & _ & Hkeep & _).
  split; [exact Hex|]. split; [exact Hraise|].
  rewrite Hkeep. vm_compute. reflexivity.
Defined.

Lemma module_level_calls_dropped_witness :
  heap (snd (Globals.logScalar 0 "loss" (ScalarNum (1 # 2)) None None None None
               p_idle)) = heap p_idle
  ∧ fst (Globals.logMessage 0 "OOM" ERROR p_idle) = Ok tt
  ∧ files (pdisk (snd (Globals.logMessage 0 "OOM" ERROR p_idle))) =
      files (pdisk p_idle).
Proof.
  assert (He : default [] (stacks p_idle !! 0%nat) = []) by reflexivity.
  destruct (module_level_calls_without_logger_are_dropped 0 "loss"
              (ScalarNum (1 # 2)) ImgOther None None None None None None None
              "OOM" ERROR STOP None None p_idle He)
    as ((Hh & _) & _ & (_ & Hf & _) & _ & Hr & _).
  split; [exact Hh|]. split; [exact Hr|exact Hf].
Defined.
